(** * Console output and animation demo: a verified model of stdout_example.py

    The program writes to [sys.stdout], sleeps, raises and catches
    exceptions, and (in one demo) runs a background thread.  The model keeps
    all of that observable:

    - a Python [str] is a list of Unicode code points;
    - a Python [float] is an IEEE binary64 value ([SpecFloat] at precision
      53), so [i / total] and [int(bar_width * progress)] round as CPython
      does;
    - sequential code lives in a writer monad with exceptions: a computation
      is the list of events it performs on the console together with its
      outcome (a value or a raised exception);
    - the threaded demo is a transition system whose steps interleave the main
      flow and the animation thread. *)

From Stdlib Require Import String Ascii DecimalString.
From Stdlib Require Decimal DecimalPos DecimalZ.
From Stdlib Require Import ZArith NArith List Bool Lia SpecFloat.
Import ListNotations.
Open Scope Z_scope.

(* ================================================================== *)
(** ** Python strings *)

Module Str.

(** A [str] is a sequence of code points. *)
Definition str := list N.

(** Source literals are kept as they are written in the Python file; Rocq
    reads them as UTF-8 bytes, which [utf8] decodes to code points. *)
Definition cont (b : N) : N := N.land b 63.

Fixpoint utf8 (bs : list N) : str :=
  match bs with
  | [] => []
  | b :: rest =>
      if (b <? 128)%N then b :: utf8 rest
      else if (b <? 224)%N then
        match rest with
        | b1 :: rest' => (N.land b 31 * 64 + cont b1)%N :: utf8 rest'
        | _ => []
        end
      else if (b <? 240)%N then
        match rest with
        | b1 :: b2 :: rest' =>
            (N.land b 15 * 4096 + cont b1 * 64 + cont b2)%N :: utf8 rest'
        | _ => []
        end
      else
        match rest with
        | b1 :: b2 :: b3 :: rest' =>
            (N.land b 7 * 262144 + cont b1 * 4096 + cont b2 * 64 + cont b3)%N
              :: utf8 rest'
        | _ => []
        end
  end.

Definition py (s : string) : str :=
  utf8 (map N_of_ascii (list_ascii_of_string s)).

(** Escapes of the source: [\r], [\n], [\b], [\033] and the backslash. *)
Definition CR : str := [13%N].
Definition LF : str := [10%N].
Definition BS : str := [8%N].
Definition ESC : str := [27%N].
Definition BACKSLASH : str := [92%N].

(** [str(n)] and [f"{n}"] for an int. *)
Definition of_int (z : Z) : str :=
  py (NilZero.string_of_int (Z.to_int z)).

(** [s * n]: repetition; a count that is not positive gives the empty
    string. *)
Definition times (s : str) (n : Z) : str :=
  concat (repeat s (Z.to_nat n)).

(** [len(s)]. *)
Definition len (s : str) : Z := Z.of_nat (length s).

Definition eqb (s t : str) : bool :=
  if list_eq_dec N.eq_dec s t then true else false.

Definition is_lower (c : N) : bool := ((97 <=? c) && (c <=? 122))%N.
Definition is_upper (c : N) : bool := ((65 <=? c) && (c <=? 90))%N.
Definition upper (c : N) : N := if is_lower c then (c - 32)%N else c.
Definition lower (c : N) : N := if is_upper c then (c + 32)%N else c.

(** [s.title()] on ASCII text: a letter that follows a letter is
    lower-cased, any other letter is upper-cased.  Code points from 128 up
    are left as they are, which is not what Python does for cased letters
    outside ASCII: the function stands for [str.title] on ASCII strings
    only, as the style names of the program are. *)
Fixpoint title_from (after_letter : bool) (s : str) : str :=
  match s with
  | [] => []
  | c :: rest =>
      let cased := is_lower c || is_upper c in
      (if cased then (if after_letter then lower c else upper c) else c)
        :: title_from cased rest
  end.

Definition title (s : str) : str := title_from false s.

(** Characters that occupy a cell of the terminal: everything but the
    control codes. *)
Definition is_visible (c : N) : bool := ((32 <=? c) && negb (c =? 127))%N.

Definition visible_len (s : str) : Z :=
  Z.of_nat (length (filter is_visible s)).

Definition starts_with (p s : str) : bool :=
  eqb (firstn (length p) s) p.

(** Number of occurrences of the glyph [g] in [s]. *)
Definition count (g : N) (s : str) : Z :=
  Z.of_nat (length (filter (N.eqb g) s)).

End Str.
Import Str.

(* ================================================================== *)
(** ** Python ints and floats *)

(** [range(start, stop, step)] for a non-zero step. *)
Definition range3 (start stop step : Z) : list Z :=
  if 0 <? step then
    map (fun k => start + Z.of_nat k * step)
        (seq 0 (Z.to_nat ((stop - start + step - 1) / step)))
  else if step <? 0 then
    map (fun k => start + Z.of_nat k * step)
        (seq 0 (Z.to_nat ((start - stop - step - 1) / (- step))))
  else [].

Definition range (stop : Z) : list Z := range3 0 stop 1.

Module Float.

Definition prec : Z := 53.
Definition emax : Z := 1024.

Definition float := spec_float.

(** Conversion of an int; exact below 2^53 in magnitude, and rounded to
    nearest even above. *)
Definition of_int (z : Z) : float := binary_normalize prec emax z 0 false.

Definition mul : float -> float -> float := SFmul prec emax.
Definition div : float -> float -> float := SFdiv prec emax.

(** [int(x)]: truncation towards zero; [None] on an infinity or a NaN,
    where Python raises. *)
Definition to_int (x : float) : option Z :=
  match x with
  | S754_zero _ => Some 0
  | S754_finite s m e =>
      Some (cond_Zopp s (if 0 <=? e then Zpos m * 2 ^ e
                         else Zpos m / 2 ^ (- e)))
  | _ => None
  end.

End Float.

(* ================================================================== *)
(** ** Console events, exceptions and the monad of sequential code *)

(** What a run does to the console, in order.  [Sleep] carries the argument
    of [time.sleep] in milliseconds. *)
Inductive event :=
| Write (s : str)
| Flush
| Sleep (ms : Z).

(** The exceptions the program can meet.  [KeyboardInterrupt] and
    [SystemExit] derive from [BaseException] only; the others derive from
    [Exception]. *)
Inductive exn :=
| RuntimeError (msg : str)
| ZeroDivisionError (msg : str)
| IndexError (msg : str)
| OverflowError (msg : str)
| ValueError (msg : str)
| KeyboardInterrupt
| SystemExit.

Definition is_Exception (e : exn) : bool :=
  match e with
  | KeyboardInterrupt | SystemExit => false
  | _ => true
  end.

(** [str(e)]. *)
Definition exn_str (e : exn) : str :=
  match e with
  | RuntimeError m | ZeroDivisionError m | IndexError m | OverflowError m
  | ValueError m => m
  | KeyboardInterrupt | SystemExit => []
  end.

Inductive result (A : Type) :=
| Ok (a : A)
| Raise (e : exn).
Arguments Ok {A} a.
Arguments Raise {A} e.

Definition io (A : Type) : Type := list event * result A.

Definition events {A} (m : io A) : list event := fst m.
Definition outcome {A} (m : io A) : result A := snd m.

Definition ret {A} (a : A) : io A := ([], Ok a).

Definition bind {A B} (m : io A) (f : A -> io B) : io B :=
  match m with
  | (t, Ok a) => let (t', r) := f a in (t ++ t', r)
  | (t, Raise e) => (t, Raise e)
  end.

Definition raise {A} (e : exn) : io A := ([], Raise e).

Notation "x <- m ;; k" := (bind m (fun x => k))
  (at level 61, m at next level, right associativity).
Notation "m ;; k" := (bind m (fun _ => k))
  (at level 61, right associativity).

(** [try: m except ...: h]; [h e] is [None] when no clause matches [e], and
    the exception goes on to the caller. *)
Definition try_except {A} (m : io A) (h : exn -> option (io A)) : io A :=
  match m with
  | (t, Ok a) => (t, Ok a)
  | (t, Raise e) =>
      match h e with
      | Some k => let (t', r) := k in (t ++ t', r)
      | None => (t, Raise e)
      end
  end.

(** [for x in l: body x]. *)
Fixpoint for_ {A} (l : list A) (body : A -> io unit) : io unit :=
  match l with
  | [] => ret tt
  | x :: rest => body x ;; for_ rest body
  end.

(** How an iteration of a loop with [break] and [continue] ends. *)
Inductive ctl := Continue | Break.

Fixpoint for_ctl {A} (l : list A) (body : A -> io ctl) : io unit :=
  match l with
  | [] => ret tt
  | x :: rest =>
      c <- body x ;;
      match c with
      | Continue => for_ctl rest body
      | Break => ret tt
      end
  end.

Definition sys_stdout_write (s : str) : io unit := ([Write s], Ok tt).
Definition sys_stdout_flush : io unit := ([Flush], Ok tt).
Definition time_sleep (ms : Z) : io unit := ([Sleep ms], Ok tt).

(** [print(s)] writes [s] and then the line end, as two writes. *)
Definition print (s : str) : io unit :=
  sys_stdout_write s ;; sys_stdout_write LF.

(** [l[i]] with Python's negative indices and [IndexError]. *)
Definition index {A} (l : list A) (i : Z) : io A :=
  let n := Z.of_nat (length l) in
  let j := if i <? 0 then i + n else i in
  if (0 <=? j) && (j <? n) then
    match nth_error l (Z.to_nat j) with
    | Some x => ret x
    | None => raise (IndexError (py "list index out of range"))
    end
  else raise (IndexError (py "list index out of range")).

(** [a % b] on ints. *)
Definition mod_ (a b : Z) : io Z :=
  if b =? 0 then raise (ZeroDivisionError (py "integer modulo by zero"))
  else ret (a mod b).

(** [a / b] on ints below 2^53 in magnitude. *)
Definition truediv (a b : Z) : io Float.float :=
  if b =? 0 then raise (ZeroDivisionError (py "division by zero"))
  else ret (Float.div (Float.of_int a) (Float.of_int b)).

(** [int(x)] on a float. *)
Definition int_ (x : Float.float) : io Z :=
  match Float.to_int x with
  | Some z => ret z
  | None =>
      match x with
      | S754_nan =>
          raise (ValueError (py "cannot convert float NaN to integer"))
      | _ =>
          raise (OverflowError (py "cannot convert float infinity to integer"))
      end
  end.

(** The glyph of the frame set [chars] at index [k mod len(chars)]. *)
Definition glyph_at (chars : list str) (k : Z) : str :=
  nth (Z.to_nat (k mod Z.of_nat (length chars))) chars [].

(* ================================================================== *)
(** ** ConsoleAnimator *)

Module ConsoleAnimator.

Definition write_with_flush (text : str) : io unit :=
  sys_stdout_write text ;; sys_stdout_flush.

Definition clear_line : io unit :=
  sys_stdout_write (CR ++ times (py " ") 80 ++ CR) ;; sys_stdout_flush.

Definition move_cursor_up (lines : Z) : io unit :=
  sys_stdout_write (ESC ++ py "[" ++ of_int lines ++ py "A") ;;
  sys_stdout_flush.

Definition move_cursor_down (lines : Z) : io unit :=
  sys_stdout_write (ESC ++ py "[" ++ of_int lines ++ py "B") ;;
  sys_stdout_flush.

End ConsoleAnimator.
Import ConsoleAnimator.

(* ================================================================== *)
(** ** The demos *)

Definition demo_basic_write : io unit :=
  print (LF ++ py "=== Basic Write Demo ===") ;;
  print (py "Line 1 with print") ;;
  print (py "Line 2 with print") ;;
  write_with_flush (py "Line 1 with stdout.write") ;;
  write_with_flush (py "Line 2 with stdout.write") ;;
  write_with_flush LF ;;
  print (py "Now we're on a new line").

Definition demo_flush_importance : io unit :=
  print (LF ++ py "=== Flush Importance Demo ===") ;;
  print (py "Without flush (may not show immediately):") ;;
  for_ (range 5) (fun i =>
    sys_stdout_write (py "Processing " ++ of_int i ++ py "... ") ;;
    time_sleep 500) ;;
  print (LF ++ LF ++ py "With flush (shows immediately):") ;;
  for_ (range 5) (fun i =>
    write_with_flush (py "Processing " ++ of_int i ++ py "... ") ;;
    time_sleep 500) ;;
  print (LF ++ py "Done!").

(** *** Carriage-return countdown *)

Definition countdown_frame (i : Z) : str := CR ++ py "Countdown: " ++ of_int i.

Definition countdown_done : str := CR ++ py "Countdown: Blast off!     " ++ LF.

Definition demo_carriage_return : io unit :=
  print (LF ++ py "=== Carriage Return Demo ===") ;;
  print (py "Counting down with carriage return:") ;;
  for_ (range3 10 0 (-1)) (fun i =>
    write_with_flush (countdown_frame i) ;;
    time_sleep 500) ;;
  write_with_flush countdown_done.

(** *** Spinner loading *)

Definition animation_chars : list str :=
  [py "⠋"; py "⠙"; py "⠹"; py "⠸"; py "⠼"; py "⠴"; py "⠦"; py "⠧"; py "⠇";
   py "⠏"].

(** One pass of the loop of [demo_loading_animation], over any frame set. *)
Definition loading_step (chars : list str) (i : Z) : io unit :=
  k <- mod_ i (Z.of_nat (length chars)) ;;
  char <- index chars k ;;
  write_with_flush
    (CR ++ char ++ py " Loading... " ++ of_int (i + 1) ++ py "/20") ;;
  time_sleep 100.

Definition loading_done : str := CR ++ py "✅ Loading complete!     " ++ LF.

Definition loading_animation (chars : list str) : io unit :=
  print (LF ++ py "=== Loading Animation Demo ===") ;;
  print (py "Loading with animation:") ;;
  for_ (range 20) (loading_step chars) ;;
  write_with_flush loading_done.

Definition demo_loading_animation : io unit :=
  loading_animation animation_chars.

(** *** Progress bar *)

(** One pass of the loop of [demo_progress_bar]. *)
Definition progress_step (total bar_width i : Z) : io unit :=
  progress <- truediv i total ;;
  filled_width <- int_ (Float.mul (Float.of_int bar_width) progress) ;;
  let bar := times (py "█") filled_width
             ++ times (py "░") (bar_width - filled_width) in
  percentage <- int_ (Float.mul progress (Float.of_int 100)) ;;
  write_with_flush
    (CR ++ py "Progress: [" ++ bar ++ py "] " ++ of_int percentage
        ++ py "% (" ++ of_int i ++ py "/" ++ of_int total ++ py ")") ;;
  time_sleep 50.

Definition progress_bar (total bar_width : Z) : io unit :=
  print (LF ++ py "=== Progress Bar Demo ===") ;;
  print (py "Processing with progress bar:") ;;
  for_ (range (total + 1)) (progress_step total bar_width) ;;
  print (LF ++ py "✅ Processing complete!").

Definition demo_progress_bar : io unit := progress_bar 50 30.

(** The values of the locals [filled_width] and [percentage] at iteration
    [i], as the loop body computes them. *)
Definition filled_width (total bar_width i : Z) : io Z :=
  progress <- truediv i total ;;
  int_ (Float.mul (Float.of_int bar_width) progress).

Definition percentage (total i : Z) : io Z :=
  progress <- truediv i total ;;
  int_ (Float.mul progress (Float.of_int 100)).

(** *** Multi-line cursor update *)

Definition demo_multi_line_output : io unit :=
  print (LF ++ py "=== Multi-line Output Demo ===") ;;
  print (py "Initial state:") ;;
  print (py "Line 1: Ready") ;;
  print (py "Line 2: Ready") ;;
  print (py "Line 3: Ready") ;;
  time_sleep 1000 ;;
  move_cursor_up 3 ;;
  write_with_flush (CR ++ py "Line 1: Processing...") ;;
  time_sleep 500 ;;
  move_cursor_down 1 ;;
  write_with_flush (CR ++ py "Line 2: Processing...") ;;
  time_sleep 500 ;;
  move_cursor_down 1 ;;
  write_with_flush (CR ++ py "Line 3: Processing...") ;;
  time_sleep 500 ;;
  move_cursor_down 1 ;;
  print (CR ++ py "✅ All lines processed!").

(** *** Backspace typing and erasing *)

Definition erase_seq : str := BS ++ py " " ++ BS.

(** [demo_backspace] for any value of its local [message]. *)
Definition backspace (message : str) : io unit :=
  print (LF ++ py "=== Backspace Demo ===") ;;
  print (py "Typing effect:") ;;
  for_ message (fun char =>
    write_with_flush [char] ;;
    time_sleep 100) ;;
  print LF ;;
  print (py "Deleting effect:") ;;
  for_ (range3 (len message) 0 (-1)) (fun i =>
    write_with_flush erase_seq ;;
    time_sleep 100) ;;
  print (py "Done!").

Definition demo_backspace : io unit := backspace (py "Hello, World!").

(** *** Multi-style spinner *)

Definition animations : list (str * list str) :=
  [ (py "dots",
     [py "⠋"; py "⠙"; py "⠹"; py "⠸"; py "⠼"; py "⠴"; py "⠦"; py "⠧"; py "⠇";
      py "⠏"]);
    (py "spinner", [py "|"; py "/"; py "-"; BACKSLASH]);
    (py "bars", [py "▌"; py "▀"; py "▐"; py "▄"]);
    (py "circles", [py "◐"; py "◓"; py "◑"; py "◒"]) ].

Definition style_step (style_name : str) (chars : list str) (i : Z)
  : io unit :=
  k <- mod_ i (Z.of_nat (length chars)) ;;
  char <- index chars k ;;
  write_with_flush (CR ++ char ++ py " " ++ style_name ++ py " loading...") ;;
  time_sleep 200.

Definition style_done (style_name : str) : str :=
  CR ++ py "✅ " ++ title style_name ++ py " complete!     " ++ LF.

(** The body of the loop over the styles. *)
Definition style_run (style : str * list str) : io unit :=
  let (style_name, chars) := style in
  print (LF ++ title style_name ++ py " animation:") ;;
  for_ (range 10) (style_step style_name chars) ;;
  write_with_flush (style_done style_name).

Definition advanced_loading (styles : list (str * list str)) : io unit :=
  print (LF ++ py "=== Advanced Loading Demo ===") ;;
  for_ styles style_run.

Definition demo_advanced_loading : io unit := advanced_loading animations.

(** *** Error handling *)

Definition processing_step (i : Z) : str :=
  CR ++ py "Processing step " ++ of_int (i + 1) ++ py "/5...".

Definition clear_str : str := CR ++ times (py " ") 80 ++ CR.

Definition simulated_error : exn :=
  RuntimeError (py "Simulated error during processing").

Definition demo_error_handling : io unit :=
  print (LF ++ py "=== Error Handling Demo ===") ;;
  try_except
    (print (py "Starting risky operation...") ;;
     for_ (range 5) (fun i =>
       write_with_flush (processing_step i) ;;
       time_sleep 500 ;;
       if i =? 2 then raise simulated_error else ret tt) ;;
     write_with_flush
       (CR ++ py "✅ Operation completed successfully!" ++ LF))
    (fun e =>
       if is_Exception e then
         Some (clear_line ;;
               print (py "❌ Error occurred: " ++ exn_str e) ;;
               print (py "Console state cleaned up properly."))
       else None).

(* ================================================================== *)
(** ** The driver *)

(** A demo as [main] sees it: the function's [__name__] and what calling it
    does. *)
Record demo := { __name__ : str; call : io unit }.

Definition rule : str := times (py "=") 50.

Definition interrupt_notice : str :=
  LF ++ LF ++ py "⚠️  Demo interrupted by user.".

Definition error_report (d : demo) (e : exn) : str :=
  LF ++ py "❌ Error in " ++ __name__ d ++ py ": " ++ exn_str e.

(** The loop [for demo in demos: try: demo() except ...]. *)
Definition run_demos (demos : list demo) : io unit :=
  for_ctl demos (fun d =>
    try_except (call d ;; ret Continue)
      (fun e =>
         match e with
         | KeyboardInterrupt => Some (print interrupt_notice ;; ret Break)
         | _ =>
             if is_Exception e
             then Some (print (error_report d e) ;; ret Continue)
             else None
         end)).

Definition main_with (demos : list demo) : io unit :=
  print (py "Console Output and Animation Demo") ;;
  print rule ;;
  print
    (py "Demonstrating sys.stdout.write() and sys.stdout.flush() techniques") ;;
  print rule ;;
  run_demos demos ;;
  print (LF ++ rule) ;;
  print (py "All demos completed!") ;;
  print rule.

(** The list of [main].  What a call of the threaded demo does depends on the
    scheduling of its thread (see [Threaded] below), so the driver takes it
    as an argument. *)
Definition demos (demo_threaded_animation : io unit) : list demo :=
  [ {| __name__ := py "demo_basic_write"; call := demo_basic_write |};
    {| __name__ := py "demo_flush_importance"; call := demo_flush_importance |};
    {| __name__ := py "demo_carriage_return"; call := demo_carriage_return |};
    {| __name__ := py "demo_loading_animation";
       call := demo_loading_animation |};
    {| __name__ := py "demo_progress_bar"; call := demo_progress_bar |};
    {| __name__ := py "demo_multi_line_output";
       call := demo_multi_line_output |};
    {| __name__ := py "demo_backspace"; call := demo_backspace |};
    {| __name__ := py "demo_threaded_animation";
       call := demo_threaded_animation |};
    {| __name__ := py "demo_advanced_loading"; call := demo_advanced_loading |};
    {| __name__ := py "demo_error_handling"; call := demo_error_handling |} ].

Definition main (demo_threaded_animation : io unit) : io unit :=
  main_with (demos demo_threaded_animation).

(* ================================================================== *)
(** ** Reading a run *)

(** The strings written, in order. *)
Definition writes_of (t : list event) : list str :=
  flat_map (fun e => match e with Write s => [s] | _ => [] end) t.

Definition written {A} (m : io A) : list str := writes_of (events m).

(** The glyphs of the progress bar. *)
Definition SOLID : N := hd 0%N (py "█").
Definition SHADE : N := hd 0%N (py "░").

Definition solid_cells {A} (m : io A) : Z := count SOLID (concat (written m)).
Definition shade_cells {A} (m : io A) : Z := count SHADE (concat (written m)).

(** The writes that start with a carriage return: the overwrites of the
    current line. *)
Definition overwrites {A} (m : io A) : list str :=
  filter (starts_with CR) (written m).

(** [final] is the last overwrite of the run, and it is at least as long, in
    visible characters, as each overwrite before it. *)
Definition covered_by {A} (m : io A) (final : str) : Prop :=
  exists prior,
    overwrites m = prior ++ [final] /\
    Forall (fun w => visible_len w <= visible_len final) prior.

(** [s] without its prefix [p]. *)
Definition strip_prefix (p s : str) : option str :=
  if starts_with p s then Some (skipn (length p) s) else None.

(** A non-empty run of decimal digits, as a number. *)
Fixpoint digits_value (acc : Z) (s : str) : option Z :=
  match s with
  | [] => Some acc
  | c :: rest =>
      if ((48 <=? c) && (c <=? 57))%N
      then digits_value (10 * acc + (Z.of_N c - 48)) rest
      else None
  end.

Definition parse_int (s : str) : option Z :=
  match s with
  | [] => None
  | _ => digits_value 0 s
  end.

(** The counter shown by a write of the countdown, if it shows one. *)
Definition read_counter (w : str) : option Z :=
  match strip_prefix (CR ++ py "Countdown: ") w with
  | Some rest => parse_int rest
  | None => None
  end.

Definition emitted_counters {A} (m : io A) : list Z :=
  flat_map (fun w => match read_counter w with Some v => [v] | None => [] end)
           (written m).

(** [l] occurs in [t] in this order, other elements possibly in between. *)
Fixpoint in_order (l t : list str) : bool :=
  match l, t with
  | [], _ => true
  | _ :: _, [] => false
  | x :: l', y :: t' =>
      if Str.eqb x y then in_order l' t' else in_order l t'
  end.

(* ================================================================== *)
(** ** The threaded spinner, as a transition system *)

Module Threaded.

Inductive actor := MainFlow | Animation.

(** Where the thread running [animate] stands; [i] is its local counter. *)
Inductive tpc :=
| NotStarted
| AtTest (i : Z)    (* while not stop_event.is_set(): *)
| AtWrite (i : Z)   (* sys.stdout.write(f"\r{chars[i]} Working...") *)
| AtFlush (i : Z)   (* sys.stdout.flush() *)
| AtIncr (i : Z)    (* i = (i + 1) % len(chars) *)
| AtSleep (i : Z)   (* time.sleep(0.2) *)
| Finished          (* the loop was left: [animate] has returned *)
| Died (e : exn).   (* an exception ended the thread *)

Definition terminated (t : tpc) : bool :=
  match t with
  | Finished | Died _ => true
  | _ => false
  end.

(** The statements of the main flow.  [Emit] is a console event of the main
    flow; the others act on the event object and on the thread. *)
Inductive instr :=
| Emit (e : event)
| EventNew      (* stop_event = threading.Event() *)
| ThreadStart   (* animation_thread.start() *)
| EventSet      (* stop_event.set() *)
| ThreadJoin.   (* animation_thread.join() *)

Definition main_prog : list instr :=
  map Emit (events (print (LF ++ py "=== Threaded Animation Demo ===")))
  ++ [EventNew; ThreadStart]
  ++ map Emit (events (print (py "Starting work...")))
  ++ [Emit (Sleep 3000); EventSet; ThreadJoin]
  ++ map Emit (events clear_line)
  ++ map Emit (events (print (py "✅ Work complete!"))).

Definition is_set (i : instr) : bool :=
  match i with EventSet => true | _ => false end.

Definition is_join (i : instr) : bool :=
  match i with ThreadJoin => true | _ => false end.

Record state := {
  pc : nat;                      (* next statement of the main flow *)
  thread : tpc;
  stop_event : bool;
  out : list (actor * event)     (* the console, with who wrote what *)
}.

Definition init : state :=
  {| pc := 0; thread := NotStarted; stop_event := false; out := [] |}.

(** The statements the main flow has executed so far. *)
Definition executed (s : state) : list instr := firstn (pc s) main_prog.

Definition stop_signalled (s : state) : bool := existsb is_set (executed s).
Definition joined (s : state) : bool := existsb is_join (executed s).

(** What the animation thread has written so far. *)
Definition animation_events (s : state) : list event :=
  map snd (filter (fun ae => match fst ae with
                             | Animation => true
                             | MainFlow => false
                             end) (out s)).

Definition animation_writes (s : state) : list str :=
  writes_of (animation_events s).

Section Frames.

(** The frame set of [animate]; the demo runs with [spinner_chars]. *)
Variable chars : list str.

Definition working_frame (c : str) : str := CR ++ c ++ py " Working...".

(** One step of the thread; [None] when it has none to take. *)
Definition thread_step (stop : bool) (t : tpc) : option (tpc * list event) :=
  match t with
  | NotStarted | Finished | Died _ => None
  | AtTest i => Some (if stop then Finished else AtWrite i, [])
  | AtWrite i =>
      match outcome (index chars i) with
      | Ok c => Some (AtFlush i, [Write (working_frame c)])
      | Raise e => Some (Died e, [])
      end
  | AtFlush i => Some (AtIncr i, [Flush])
  | AtIncr i =>
      match outcome (mod_ (i + 1) (Z.of_nat (length chars))) with
      | Ok j => Some (AtSleep j, [])
      | Raise e => Some (Died e, [])
      end
  | AtSleep i => Some (AtTest i, [Sleep 200])
  end.

Definition step_thread (s : state) : option state :=
  match thread_step (stop_event s) (thread s) with
  | Some (t, evs) =>
      Some {| pc := pc s; thread := t; stop_event := stop_event s;
              out := out s ++ map (pair Animation) evs |}
  | None => None
  end.

(** One step of the main flow; [join] waits for the thread to be over. *)
Definition step_main (s : state) : option state :=
  match nth_error main_prog (pc s) with
  | Some (Emit e) =>
      Some {| pc := S (pc s); thread := thread s;
              stop_event := stop_event s;
              out := out s ++ [(MainFlow, e)] |}
  | Some EventNew =>
      Some {| pc := S (pc s); thread := thread s; stop_event := false;
              out := out s |}
  | Some ThreadStart =>
      match thread s with
      | NotStarted =>
          Some {| pc := S (pc s); thread := AtTest 0;
                  stop_event := stop_event s; out := out s |}
      | _ => None
      end
  | Some EventSet =>
      Some {| pc := S (pc s); thread := thread s; stop_event := true;
              out := out s |}
  | Some ThreadJoin =>
      if terminated (thread s)
      then Some {| pc := S (pc s); thread := thread s;
                   stop_event := stop_event s; out := out s |}
      else None
  | None => None
  end.

Definition step_of (a : actor) (s : state) : option state :=
  match a with
  | MainFlow => step_main s
  | Animation => step_thread s
  end.

(** The scheduler picks who moves next. *)
Inductive step : state -> state -> Prop :=
| step_by (a : actor) (s s' : state) : step_of a s = Some s' -> step s s'.

Inductive steps : state -> state -> Prop :=
| steps_refl (s : state) : steps s s
| steps_next (s s' s'' : state) : steps s s' -> step s' s'' -> steps s s''.

Definition reachable (s : state) : Prop := steps init s.

(** A run under a given schedule. *)
Fixpoint run (sched : list actor) (s : state) : option state :=
  match sched with
  | [] => Some s
  | a :: rest =>
      match step_of a s with
      | Some s' => run rest s'
      | None => None
      end
  end.

(** The frame the [k]-th write of the thread shows when the glyph is picked
    at index [k mod len(chars)]. *)
Definition frame_at (k : nat) : str :=
  working_frame (glyph_at chars (Z.of_nat k)).

(** What relates the counter [i] of the thread to the number of frames it
    has written. *)
Definition thread_inv (s : state) : Prop :=
  let n := length (animation_writes s) in
  let L := Z.of_nat (length chars) in
  animation_writes s = map frame_at (seq 0 n) /\
  match thread s with
  | NotStarted => n = 0%nat
  | AtTest i | AtWrite i | AtSleep i => i = Z.of_nat n mod L
  | AtFlush i | AtIncr i =>
      (0 < n)%nat /\ 0 < L /\ i = (Z.of_nat n - 1) mod L
  | Finished | Died _ => True
  end.

(** The state a schedule leads to from [init] ([init] if it gets stuck). *)
Definition after (sched : list actor) : state :=
  match run sched init with
  | Some s => s
  | None => init
  end.

End Frames.

Definition spinner_chars : list str := [py "|"; py "/"; py "-"; BACKSLASH].

(** A schedule of the demo in which the thread shows [n] frames before the
    main flow sets the stop event: [until_join n] runs up to the return of
    [join], [to_the_end] is the rest of the main flow. *)
Definition until_join (n : nat) : list actor :=
  repeat MainFlow 4
  ++ repeat Animation (5 * n)
  ++ repeat MainFlow 4
  ++ [Animation]
  ++ [MainFlow].

Definition to_the_end : list actor := repeat MainFlow 4.

End Threaded.


(* ================================================================== *)
(** ** Auxiliary definitions for the proofs *)

(** The driver goes on to the next demo after [d]: the call returns, or
    raises an [Exception]. *)
Definition passes (d : demo) : bool :=
  match outcome (call d) with
  | Ok _ => true
  | Raise e => is_Exception e
  end.

(** The console events of one pass of the driver's loop over [d]: those of
    the call, then those of the handler the outcome selects. *)
Definition handled (d : demo) : list event :=
  events (call d) ++
  match outcome (call d) with
  | Ok _ => []
  | Raise KeyboardInterrupt => events (print interrupt_notice)
  | Raise e => if is_Exception e then events (print (error_report d e)) else []
  end.

(** Three small demos that exercise the three ways a pass of the driver's
    loop can go. *)
Definition probe_returns : demo :=
  {| __name__ := py "probe_returns";
     call := write_with_flush (py "Line 1 with stdout.write") |}.

Definition probe_raises : demo :=
  {| __name__ := py "probe_raises";
     call := write_with_flush (processing_step 2) ;; raise simulated_error |}.

Definition probe_interrupted : demo :=
  {| __name__ := py "probe_interrupted";
     call := write_with_flush (countdown_frame 7) ;; raise KeyboardInterrupt |}.

(** Checks of the progress bar of the demo, one iteration at a time. *)
Definition filled_ok (i : Z) : bool :=
  match filled_width 50 30 i with
  | ([], Ok z) => z =? 30 * i / 50
  | _ => false
  end.

Definition bar_ok (i : Z) : bool :=
  (solid_cells (progress_step 50 30 i) =? 30 * i / 50)
  && (shade_cells (progress_step 50 30 i) =? 30 - 30 * i / 50).

Definition step_shape (i : Z) : bool :=
  match progress_step 50 30 i with
  | ([Write _; Flush; Sleep ms], Ok tt) => ms =? 50
  | _ => false
  end.

(* ================================================================== *)
(** ** Decoding what was written *)

(** Which way a cursor-movement sequence moves. *)
Inductive direction := Up | Down.

(** The rows and the direction of the ANSI sequence [ESC [ n A] or
    [ESC [ n B]; [None] for any other string. *)
Definition parse_cursor (w : str) : option (direction * Z) :=
  match strip_prefix (ESC ++ py "[") w with
  | Some rest =>
      match parse_int (removelast rest) with
      | Some n =>
          if Str.eqb [last rest 0%N] (py "A") then Some (Up, n)
          else if Str.eqb [last rest 0%N] (py "B") then Some (Down, n)
          else None
      | None => None
      end
  | None => None
  end.

(* ================================================================== *)
(** ** Frames, as text *)

(** The percentage the progress bar shows at iteration [i] of 50: the
    quotient 100 * i / 50, but for [i = 29], where the float product
    [0.58 * 100] is 57.99999999999999 and [int] cuts it to 57. *)
Definition shown_percentage (i : Z) : Z :=
  if i =? 29 then 57 else 100 * i / 50.

(** The frame of the progress bar at iteration [i] of 50, bar of 30. *)
Definition progress_frame (i : Z) : str :=
  CR ++ py "Progress: ["
     ++ (times (py "█") (30 * i / 50) ++ times (py "░") (30 - 30 * i / 50))
     ++ py "] " ++ of_int (shown_percentage i)
     ++ py "% (" ++ of_int i ++ py "/" ++ of_int 50 ++ py ")".

(** The frame of a style of the advanced loading demo at iteration [i]. *)
Definition style_frame (style_name : str) (chars : list str) (i : Z) : str :=
  CR ++ glyph_at chars i ++ py " " ++ style_name ++ py " loading...".

Definition percentage_ok (i : Z) : bool :=
  match percentage 50 i with
  | ([], Ok z) => z =? shown_percentage i
  | _ => false
  end.

Definition frames_grow (i : Z) : bool :=
  forallb (fun j => (j <? i)
                    || (visible_len (progress_frame i)
                        <=? visible_len (progress_frame j)))
          (range 51).

(* ================================================================== *)
(** ** Around the driver's loop *)

(** What [main] prints before and after its loop. *)
Definition main_header : list event :=
  events (print (py "Console Output and Animation Demo") ;;
          print rule ;;
          print
            (py "Demonstrating sys.stdout.write() and sys.stdout.flush() techniques") ;;
          print rule).

Definition main_footer : list event :=
  events (print (LF ++ rule) ;;
          print (py "All demos completed!") ;;
          print rule).

(** A demo that ends the interpreter, as a call of [sys.exit] does. *)
Definition probe_exits : demo :=
  {| __name__ := py "probe_exits";
     call := write_with_flush (py "Line 1 with stdout.write") ;;
             raise SystemExit |}.

(* ================================================================== *)
(** ** Around the threaded spinner *)

Module ThreadedAux.
Import Threaded.

(** The frames the thread is yet to write once the stop event is set: one
    if it stands between the test of the loop and the write, none
    otherwise. *)
Definition pending (t : tpc) : nat :=
  match t with
  | AtWrite _ => 1
  | _ => 0
  end.

Definition is_new (i : instr) : bool :=
  match i with EventNew => true | _ => false end.

(** The console events of a list of statements of the main flow. *)
Definition emitted (prog : list instr) : list event :=
  flat_map (fun i => match i with Emit e => [e] | _ => [] end) prog.

(** What the main flow has put on the console so far. *)
Definition main_events (s : state) : list event :=
  map snd (filter (fun ae => match fst ae with
                             | MainFlow => true
                             | Animation => false
                             end) (out s)).

(** The main flow, run alone. *)
Definition main_flow_alone : io unit :=
  print (LF ++ py "=== Threaded Animation Demo ===") ;;
  print (py "Starting work...") ;;
  time_sleep 3000 ;;
  clear_line ;;
  print (py "✅ Work complete!").

(** The main flow has returned. *)
Definition completed (s : state) : Prop := pc s = length main_prog.

(** How the main flow and the thread stand to each other in a reachable
    state: the thread exists from [start] on, and the stop event is set
    from [set] on. *)
Definition wf (s : state) : Prop :=
  (pc s <= 13)%nat /\
  ((pc s <= 3)%nat -> thread s = NotStarted) /\
  ((3 < pc s)%nat -> thread s <> NotStarted) /\
  ((8 <= pc s)%nat -> stop_event s = true).

(** The thread of [s] can reach its end without the main flow moving. *)
Definition stops (chars : list str) (s : state) : Prop :=
  exists sched s',
    run chars sched s = Some s' /\ pc s' = pc s /\
    terminated (thread s') = true.

(** A state in which the stop event is set and the thread has passed the
    test of its loop, and the rest of that pass of the loop. *)
Definition stop_then_frame : list actor :=
  repeat MainFlow 4 ++ [Animation] ++ repeat MainFlow 4.

Definition last_pass : list actor := repeat Animation 5.

End ThreadedAux.

(* ================================================================== *)
(** ** The terminal *)

(** The terminal as the docstring of the program describes it: a carriage
    return moves the cursor to the start of the line, a backspace moves it
    back one character, a line feed starts a new line, and any other
    visible character is put under the cursor, which moves right.  Cells
    never written are blank.  Escape sequences are not interpreted: the
    model is used for output that has none. *)

Module Terminal.

Record screen := {
  above : list str;   (* the lines left behind, oldest first *)
  line : str;         (* the line of the cursor *)
  col : nat           (* the column of the cursor *)
}.

Definition blank : screen := {| above := []; line := []; col := 0 |}.

(** [x] written at column [c] of the line [l]. *)
Definition put (l : str) (c : nat) (x : N) : str :=
  firstn c (l ++ repeat 32%N (c - length l)) ++ x :: skipn (S c) l.

Definition feed1 (t : screen) (x : N) : screen :=
  if (x =? 13)%N then
    {| above := above t; line := line t; col := 0 |}
  else if (x =? 10)%N then
    {| above := above t ++ [line t]; line := []; col := 0 |}
  else if (x =? 8)%N then
    {| above := above t; line := line t; col := pred (col t) |}
  else if is_visible x then
    {| above := above t; line := put (line t) (col t) x; col := S (col t) |}
  else t.

Definition feed (t : screen) (s : str) : screen := fold_left feed1 s t.

(** The screen after a run on a blank terminal. *)
Definition show {A} (m : io A) : screen := feed blank (concat (written m)).

End Terminal.

(** The countdown from 10 down to [i], without the completion line. *)
Definition countdown_to (i : Z) : io unit :=
  for_ (range3 10 (i - 1) (-1)) (fun k =>
    write_with_flush (countdown_frame k) ;;
    time_sleep 500).

Definition stale_digit (i : Z) : bool :=
  Str.eqb (Terminal.line (Terminal.show (countdown_to i)))
          (py "Countdown: " ++ of_int i ++ py "0").


(* ================================================================== *)
(** ** The monad *)

Lemma bind_ret_l {A B} (a : A) (f : A -> io B) : bind (ret a) f = f a.
Proof. unfold bind, ret. destruct (f a) as [t r]. reflexivity. Qed.

Lemma bind_ret_r {A} (m : io A) : bind m ret = m.
Proof.
  destruct m as [t [a|e]]; cbn; [rewrite app_nil_r|]; reflexivity.
Qed.

Lemma bind_assoc {A B C} (m : io A) (f : A -> io B) (g : B -> io C) :
  bind (bind m f) g = bind m (fun x => bind (f x) g).
Proof.
  destruct m as [t [a|e]]; cbn; [|reflexivity].
  destruct (f a) as [t' [b|e]]; cbn; [|reflexivity].
  destruct (g b) as [t'' r]. rewrite app_assoc. reflexivity.
Qed.

(** An exception ends the computation: what follows is not run. *)
Lemma bind_raise {A B} (e : exn) (f : A -> io B) : bind (raise e) f = raise e.
Proof. reflexivity. Qed.

(* ================================================================== *)
(** ** Ranges and loops *)

Lemma range_seq (n : Z) :
  range n = map Z.of_nat (seq 0 (Z.to_nat n)).
Proof.
  unfold range, range3. simpl (0 <? 1).
  replace ((n - 0 + 1 - 1) / 1) with n by (rewrite Z.div_1_r; lia).
  apply map_ext. intros k. lia.
Qed.

Lemma range_In (n i : Z) : 0 <= i < n -> In i (range n).
Proof.
  intros H. rewrite range_seq. apply in_map_iff.
  exists (Z.to_nat i). split; [lia|]. apply in_seq. lia.
Qed.

Lemma range_down_length (n : Z) :
  0 <= n -> length (range3 n 0 (-1)) = Z.to_nat n.
Proof.
  intros H. unfold range3.
  change (0 <? -1) with false. change (-1 <? 0) with true. cbv iota.
  rewrite length_map, length_seq.
  replace ((n - 0 - -1 - 1) / - -1) with n; [reflexivity|].
  change (- -1) with 1. rewrite Z.div_1_r. lia.
Qed.

(** A loop whose passes all end normally performs their events in order. *)
Lemma for_events {A} (l : list A) (body : A -> io unit) (f : A -> list event) :
  (forall x, In x l -> body x = (f x, Ok tt)) ->
  for_ l body = (flat_map f l, Ok tt).
Proof.
  induction l as [|x l IH]; intros H; simpl.
  - reflexivity.
  - rewrite (H x (or_introl eq_refl)).
    rewrite IH by (intros y Hy; apply H; right; exact Hy).
    reflexivity.
Qed.

Lemma writes_of_app (t u : list event) :
  writes_of (t ++ u) = writes_of t ++ writes_of u.
Proof. unfold writes_of. apply flat_map_app. Qed.

(* ================================================================== *)
(** ** The progress bar *)

Lemma filled_ok_all : forallb filled_ok (range 51) = true.
Proof. vm_compute. reflexivity. Qed.

Lemma bar_ok_all : forallb bar_ok (range 51) = true.
Proof. vm_compute. reflexivity. Qed.

Lemma filled_width_floor (i : Z) :
  0 <= i <= 50 -> filled_width 50 30 i = ret (30 * i / 50).
Proof.
  intros H.
  pose proof (proj1 (forallb_forall _ _) filled_ok_all i) as Hi.
  specialize (Hi (range_In 51 i ltac:(lia))).
  unfold filled_ok in Hi.
  destruct (filled_width 50 30 i) as [[|ev t] [z|e]]; try discriminate.
  apply Z.eqb_eq in Hi. subst z. reflexivity.
Qed.

Lemma step_shape_all : forallb step_shape (range 51) = true.
Proof. vm_compute. reflexivity. Qed.

Lemma bar_cells (i : Z) :
  0 <= i <= 50 ->
  solid_cells (progress_step 50 30 i) = 30 * i / 50 /\
  shade_cells (progress_step 50 30 i) = 30 - 30 * i / 50.
Proof.
  intros H.
  pose proof (proj1 (forallb_forall _ _) bar_ok_all i) as Hi.
  specialize (Hi (range_In 51 i ltac:(lia))).
  unfold bar_ok in Hi.
  apply andb_true_iff in Hi. destruct Hi as [H1 H2].
  apply Z.eqb_eq in H1, H2. split; assumption.
Qed.

(** Each pass writes one frame, flushes and sleeps. *)
Lemma progress_step_frame (i : Z) :
  0 <= i <= 50 ->
  exists frame,
    progress_step 50 30 i = (write_with_flush frame ;; time_sleep 50).
Proof.
  intros H.
  pose proof (proj1 (forallb_forall _ _) step_shape_all i) as Hi.
  specialize (Hi (range_In 51 i ltac:(lia))).
  unfold step_shape in Hi.
  destruct (progress_step 50 30 i) as [t [[]|e]].
  2:{ repeat (destruct t as [|[ | | ] t]; try discriminate). }
  destruct t as [|[w| |] t]; try discriminate.
  destruct t as [|[ | |] t]; try discriminate.
  destruct t as [|[ | |ms] t]; try discriminate.
  destruct t; try discriminate.
  apply Z.eqb_eq in Hi. subst ms. exists w. reflexivity.
Qed.

Lemma int_cases (x : Float.float) :
  (exists z, int_ x = ret z) \/ (exists e, int_ x = raise e).
Proof.
  unfold int_. destruct (Float.to_int x); [left; eauto|].
  right. destruct x; eauto.
Qed.

(** [filled_width] and [percentage] are the locals of the loop body. *)
Lemma progress_step_locals (total bar_width i : Z) :
  progress_step total bar_width i =
    (filled <- filled_width total bar_width i ;;
     pct <- percentage total i ;;
     write_with_flush
       (CR ++ py "Progress: ["
           ++ (times (py "█") filled ++ times (py "░") (bar_width - filled))
           ++ py "] " ++ of_int pct
           ++ py "% (" ++ of_int i ++ py "/" ++ of_int total ++ py ")") ;;
     time_sleep 50).
Proof.
  unfold progress_step, filled_width, percentage, truediv.
  destruct (total =? 0); [reflexivity|].
  cbv beta iota delta [bind ret raise].
  destruct (int_cases (Float.mul (Float.of_int bar_width)
                         (Float.div (Float.of_int i) (Float.of_int total))))
    as [[z E]|[e E]]; rewrite E; cbv beta iota delta [bind ret raise];
    [|reflexivity].
  destruct (int_cases (Float.mul
                         (Float.div (Float.of_int i) (Float.of_int total))
                         (Float.of_int 100)))
    as [[z' E']|[e' E']]; rewrite E'; reflexivity.
Qed.

(** The percentage is truncated from the float product, which can fall just
    below the exact value: at 29 of 50 the product is 57.99999999999999. *)
Lemma percentage_truncates : percentage 50 29 = ret 57.
Proof. vm_compute. reflexivity. Qed.

(** The demo runs [progress_step 50 30] once for each [i] of [range(51)],
    between its banner and its completion line. *)
Lemma demo_progress_bar_passes :
  demo_progress_bar =
    (print (LF ++ py "=== Progress Bar Demo ===") ;;
     print (py "Processing with progress bar:") ;;
     for_ (range 51) (progress_step 50 30) ;;
     print (LF ++ py "✅ Processing complete!")).
Proof. reflexivity. Qed.

(** C1. In the progress bar demo (total = 50, bar_width = 30), for every i
    in [0, total] the filled width the loop computes is
    floor(bar_width * i / total), and the frame it writes shows that many
    solid glyphs. *)
Theorem progress_filled_width_floor (i : Z) :
  0 <= i <= 50 ->
  filled_width 50 30 i = ret (30 * i / 50) /\
  solid_cells (progress_step 50 30 i) = 30 * i / 50.
Proof.
  intros H. split.
  - apply filled_width_floor; exact H.
  - apply bar_cells; exact H.
Qed.

Lemma progress_filled_width_floor_witness :
  0 <= 29 <= 50 /\
  filled_width 50 30 29 = ret (30 * 29 / 50) /\
  solid_cells (progress_step 50 30 29) = 30 * 29 / 50.
Proof.
  split; [lia | apply (progress_filled_width_floor 29); lia].
Defined.

(** C8. For every i in [0, total], the solid and the empty glyphs of the
    rendered bar add up to bar_width, and the filled width does not decrease
    as i grows. *)
Theorem progress_bar_widths (i j : Z) :
  0 <= i <= j -> j <= 50 ->
  solid_cells (progress_step 50 30 i) + shade_cells (progress_step 50 30 i)
    = 30 /\
  solid_cells (progress_step 50 30 i) <= solid_cells (progress_step 50 30 j).
Proof.
  intros Hij Hj.
  destruct (bar_cells i ltac:(lia)) as [Hs Hd].
  destruct (bar_cells j ltac:(lia)) as [Hs' _].
  rewrite Hs, Hd, Hs'. split; [lia|].
  apply Z.div_le_mono; lia.
Qed.

Lemma progress_bar_widths_witness :
  0 <= 12 <= 13 /\ 13 <= 50 /\
  solid_cells (progress_step 50 30 12) + shade_cells (progress_step 50 30 12)
    = 30 /\
  solid_cells (progress_step 50 30 12) <= solid_cells (progress_step 50 30 13).
Proof.
  split; [lia | split; [lia | apply (progress_bar_widths 12 13); lia]].
Defined.

(** C10. The progress bar demo writes 51 frames, one for each i of
    range(total + 1), in order, so that its first frame is the one of i = 0
    and its last frame the one of i = total = 50.  The last frame shows the
    bar full (30 solid glyphs, no empty one) and 100%; the first shows the
    bar empty (30 empty glyphs) and 0%. *)
Theorem progress_bar_ends :
  written demo_progress_bar =
    [LF ++ py "=== Progress Bar Demo ==="; LF;
     py "Processing with progress bar:"; LF]
    ++ concat (map (fun i => written (progress_step 50 30 i))
                   (range (50 + 1)))
    ++ [LF ++ py "✅ Processing complete!"; LF] /\
  overwrites demo_progress_bar =
    concat (map (fun i => written (progress_step 50 30 i)) (range (50 + 1))) /\
  length (overwrites demo_progress_bar) = 51%nat /\
  hd 0 (range (50 + 1)) = 0 /\
  last (range (50 + 1)) 0 = 50 /\
  last (overwrites demo_progress_bar) [] =
    CR ++ py "Progress: [" ++ times (py "█") 30 ++ py "] 100% (50/50)" /\
  count SOLID (last (overwrites demo_progress_bar) []) = 30 /\
  count SHADE (last (overwrites demo_progress_bar) []) = 0 /\
  hd [] (overwrites demo_progress_bar) =
    CR ++ py "Progress: [" ++ times (py "░") 30 ++ py "] 0% (0/50)" /\
  count SOLID (hd [] (overwrites demo_progress_bar)) = 0 /\
  count SHADE (hd [] (overwrites demo_progress_bar)) = 30 /\
  filled_width 50 30 50 = ret 30 /\
  percentage 50 50 = ret 100 /\
  progress_step 50 30 50 =
    (write_with_flush
       (CR ++ py "Progress: [" ++ times (py "█") 30 ++ py "] 100% (50/50)") ;;
     time_sleep 50) /\
  shade_cells (progress_step 50 30 50) = 0 /\
  filled_width 50 30 0 = ret 0 /\
  percentage 50 0 = ret 0 /\
  progress_step 50 30 0 =
    (write_with_flush
       (CR ++ py "Progress: [" ++ times (py "░") 30 ++ py "] 0% (0/50)") ;;
     time_sleep 50) /\
  solid_cells (progress_step 50 30 0) = 0.
Proof. repeat split; vm_compute; reflexivity. Qed.

(* ================================================================== *)
(** ** The countdown *)

(** C4. The counters the countdown shows are 10, 9, ..., 1 in this order,
    none skipped and none repeated; each of these writes starts with a
    carriage return, and one completion line follows them. *)
Theorem countdown_sequence :
  emitted_counters demo_carriage_return = [10; 9; 8; 7; 6; 5; 4; 3; 2; 1] /\
  written demo_carriage_return =
    [LF ++ py "=== Carriage Return Demo ==="; LF;
     py "Counting down with carriage return:"; LF]
    ++ map countdown_frame [10; 9; 8; 7; 6; 5; 4; 3; 2; 1]
    ++ [countdown_done] /\
  forallb (starts_with CR) (map countdown_frame [10; 9; 8; 7; 6; 5; 4; 3; 2; 1])
    = true /\
  read_counter countdown_done = None /\
  outcome demo_carriage_return = Ok tt.
Proof. repeat split; vm_compute; reflexivity. Qed.

(* ================================================================== *)
(** ** The error-handling demo *)

Lemma error_demo_writes :
  written demo_error_handling =
    [LF ++ py "=== Error Handling Demo ==="; LF;
     py "Starting risky operation..."; LF;
     processing_step 0; processing_step 1; processing_step 2;
     clear_str;
     py "❌ Error occurred: Simulated error during processing"; LF;
     py "Console state cleaned up properly."; LF].
Proof. vm_compute. reflexivity. Qed.

(** C2. The error-handling demo writes the progress lines of iterations 0
    and 1, later the line clear, then the error message, and never the
    progress lines of iterations 3 and 4; it returns normally, the exception
    being caught inside.  (The progress line of iteration 2 is written too,
    before the failure is raised in that iteration: see
    [error_demo_writes].) *)
Theorem error_demo_recovers :
  in_order
    [processing_step 0; processing_step 1; clear_str;
     py "❌ Error occurred: Simulated error during processing"]
    (written demo_error_handling) = true /\
  ~ In (processing_step 3) (written demo_error_handling) /\
  ~ In (processing_step 4) (written demo_error_handling) /\
  outcome demo_error_handling = Ok tt.
Proof.
  split; [vm_compute; reflexivity|].
  rewrite error_demo_writes.
  split; [|split; [|reflexivity]];
    vm_compute; intros H;
    repeat (destruct H as [H|H]; [discriminate H|]); exact H.
Qed.

(* ================================================================== *)
(** ** Overwriting the animation line *)

(** What [clear_line] writes is [clear_str]. *)
Lemma clear_line_writes : clear_line = write_with_flush clear_str.
Proof. reflexivity. Qed.

(** C6. In the countdown, the loading animation, each style of the advanced
    loading demo and the error-handling demo, the last overwrite of the
    animation line (the padded completion message, or the 80 spaces of
    clear_line) has at least as many visible characters as every overwrite
    before it. *)
Theorem final_overwrite_covers :
  covered_by demo_carriage_return countdown_done /\
  covered_by demo_loading_animation loading_done /\
  Forall (fun style => covered_by (style_run style) (style_done (fst style)))
         animations /\
  covered_by demo_error_handling clear_str /\
  visible_len clear_str = 80.
Proof.
  split; [|split; [|split; [|split]]].
  - exists (map countdown_frame (range3 10 0 (-1))). split.
    + vm_compute; reflexivity.
    + repeat constructor; vm_compute; discriminate.
  - exists (overwrites (for_ (range 20) (loading_step animation_chars))). split.
    + vm_compute; reflexivity.
    + repeat constructor; vm_compute; discriminate.
  - repeat constructor.
    all: match goal with
         | |- covered_by (style_run (?n, ?c)) _ =>
             exists (overwrites (for_ (range 10) (style_step n c)))
         end; split;
         [ vm_compute; reflexivity
         | repeat constructor; vm_compute; discriminate ].
  - exists [processing_step 0; processing_step 1; processing_step 2]. split.
    + vm_compute; reflexivity.
    + repeat constructor; vm_compute; discriminate.
  - vm_compute; reflexivity.
Qed.

(* ================================================================== *)
(** ** The backspace demo *)

Lemma writes_of_Write (w : str) (t : list event) :
  writes_of (Write w :: t) = w :: writes_of t.
Proof. reflexivity. Qed.

Lemma writes_of_typing (message : str) :
  writes_of (flat_map (fun c => [Write [c]; Flush; Sleep 100]) message)
  = map (fun c => [c]) message.
Proof.
  induction message as [|c m IH]; simpl; [reflexivity|].
  f_equal. exact IH.
Qed.

Lemma writes_of_erasing {A} (l : list A) (w : str) :
  writes_of (flat_map (fun _ => [Write w; Flush; Sleep 100]) l)
  = repeat w (length l).
Proof.
  induction l as [|x l IH]; simpl; [reflexivity|].
  f_equal. exact IH.
Qed.

Lemma backspace_writes (message : str) :
  written (backspace message) =
    [LF ++ py "=== Backspace Demo ==="; LF; py "Typing effect:"; LF]
    ++ map (fun c => [c]) message
    ++ [LF; LF; py "Deleting effect:"; LF]
    ++ repeat erase_seq (length message)
    ++ [py "Done!"; LF].
Proof.
  unfold backspace, written.
  rewrite (for_events message _ (fun c => [Write [c]; Flush; Sleep 100]))
    by reflexivity.
  rewrite (for_events (range3 (len message) 0 (-1)) _
             (fun _ => [Write erase_seq; Flush; Sleep 100]))
    by reflexivity.
  cbn [bind print sys_stdout_write events fst app].
  repeat (rewrite writes_of_Write || rewrite writes_of_app).
  rewrite writes_of_typing, writes_of_erasing.
  rewrite range_down_length by (unfold len; lia).
  unfold len. rewrite Nat2Z.id. reflexivity.
Qed.

(** C7. Run with the message "Hi!", the backspace demo makes 3
    single-character writes, the characters of the message in order, for the
    typing phase, and later 3 writes of backspace, space, backspace for the
    erasing phase; for any message both counts are its length. *)
Theorem backspace_counts :
  (forall message,
     written (backspace message) =
       [LF ++ py "=== Backspace Demo ==="; LF; py "Typing effect:"; LF]
       ++ map (fun c => [c]) message
       ++ [LF; LF; py "Deleting effect:"; LF]
       ++ repeat erase_seq (length message)
       ++ [py "Done!"; LF]) /\
  written (backspace (py "Hi!")) =
    [LF ++ py "=== Backspace Demo ==="; LF; py "Typing effect:"; LF]
    ++ [py "H"; py "i"; py "!"]
    ++ [LF; LF; py "Deleting effect:"; LF]
    ++ [erase_seq; erase_seq; erase_seq]
    ++ [py "Done!"; LF] /\
  erase_seq = [8; 32; 8]%N /\
  demo_backspace = backspace (py "Hello, World!").
Proof.
  split; [exact backspace_writes|].
  repeat split; vm_compute; reflexivity.
Qed.

(* ================================================================== *)
(** ** The driver *)

Section Driver.

Variable d : demo.
Variable rest : list demo.

(** The loop goes on after a demo that returns or raises an [Exception]. *)
Lemma run_demos_pass :
  passes d = true ->
  run_demos (d :: rest)
  = (handled d ++ events (run_demos rest), outcome (run_demos rest)).
Proof.
  unfold passes, handled, run_demos, outcome, events.
  cbn [for_ctl]. fold (run_demos rest).
  destruct (call d) as [t [[]|e]]; cbn; intros H.
  - rewrite app_nil_r. destruct (run_demos rest); reflexivity.
  - destruct (run_demos rest) as [l r].
    destruct e; try discriminate H; cbn;
      rewrite <- app_assoc; reflexivity.
Qed.

(** It stops at a demo that raises [KeyboardInterrupt], whatever follows. *)
Lemma run_demos_interrupt :
  outcome (call d) = Raise KeyboardInterrupt ->
  run_demos (d :: rest)
  = (events (call d) ++ events (print interrupt_notice), Ok tt).
Proof.
  unfold run_demos, outcome, events. cbn [for_ctl].
  destruct (call d) as [t [[]|e]]; cbn; intros H; try discriminate H.
  injection H as ->. cbn. rewrite app_nil_r. reflexivity.
Qed.

End Driver.

Lemma run_demos_all_pass (ds : list demo) :
  forallb passes ds = true ->
  run_demos ds = (flat_map handled ds, Ok tt).
Proof.
  induction ds as [|d ds IH]; intros H.
  - reflexivity.
  - cbn [forallb] in H. apply andb_true_iff in H. destruct H as [Hd Hds].
    rewrite run_demos_pass by exact Hd.
    rewrite IH by exact Hds. reflexivity.
Qed.

Lemma run_demos_app_pass (pre post : list demo) :
  forallb passes pre = true ->
  run_demos (pre ++ post)
  = (flat_map handled pre ++ events (run_demos post),
     outcome (run_demos post)).
Proof.
  induction pre as [|d pre IH]; intros H.
  - cbn [app flat_map]. destruct (run_demos post); reflexivity.
  - cbn [forallb] in H. apply andb_true_iff in H. destruct H as [Hd Hpre].
    cbn [app]. rewrite run_demos_pass by exact Hd.
    rewrite IH by exact Hpre. cbn [events outcome fst snd flat_map].
    rewrite app_assoc. reflexivity.
Qed.


(** The list of [main]: its nine sequential demos return, so that all ten
    are called, whatever the call of the threaded demo returns or raises as
    an error. *)
Lemma main_calls_all (threaded : io unit) :
  passes {| __name__ := py "demo_threaded_animation"; call := threaded |}
    = true ->
  run_demos (demos threaded) = (flat_map handled (demos threaded), Ok tt).
Proof.
  intros H. apply run_demos_all_pass.
  unfold demos. cbn [forallb]. rewrite H. vm_compute. reflexivity.
Qed.


(* ================================================================== *)
(** ** Frame selection of the spinners *)

Section FrameSets.

Variable chars : list str.
Hypothesis chars_nonempty : chars <> [].

Local Notation "'L'" := (Z.of_nat (length chars)).

Lemma frame_count_pos : 0 < L.
Proof.
  destruct chars; [contradiction|]. cbn [length]. lia.
Qed.

Lemma mod_frame_count (i : Z) : mod_ i L = ret (i mod L).
Proof.
  unfold mod_. pose proof frame_count_pos.
  destruct (L =? 0) eqn:E; [apply Z.eqb_eq in E; lia|reflexivity].
Qed.

(** An index below the frame count picks the glyph at that position. *)
Lemma index_in_range (j : Z) :
  0 <= j < L -> index chars j = ret (nth (Z.to_nat j) chars []).
Proof.
  intros Hj. unfold index.
  destruct (j <? 0) eqn:E1; [apply Z.ltb_lt in E1; lia|].
  destruct (0 <=? j) eqn:E2; [|apply Z.leb_gt in E2; lia].
  destruct (j <? L) eqn:E3; [|apply Z.ltb_ge in E3; lia].
  cbn [andb].
  rewrite (nth_error_nth' chars []) by lia.
  reflexivity.
Qed.

Lemma index_mod (i : Z) : index chars (i mod L) = ret (glyph_at chars i).
Proof.
  unfold glyph_at. apply index_in_range.
  apply Z.mod_pos_bound. exact frame_count_pos.
Qed.

Lemma loading_step_glyph (i : Z) :
  loading_step chars i =
    (write_with_flush
       (CR ++ glyph_at chars i ++ py " Loading... " ++ of_int (i + 1)
           ++ py "/20") ;;
     time_sleep 100).
Proof.
  unfold loading_step.
  rewrite mod_frame_count. cbn [bind ret app].
  rewrite index_mod. reflexivity.
Qed.

Lemma style_step_glyph (style_name : str) (i : Z) :
  style_step style_name chars i =
    (write_with_flush
       (CR ++ glyph_at chars i ++ py " " ++ style_name ++ py " loading...") ;;
     time_sleep 200).
Proof.
  unfold style_step.
  rewrite mod_frame_count. cbn [bind ret app].
  rewrite index_mod. reflexivity.
Qed.

End FrameSets.

(* ================================================================== *)
(** ** The threaded spinner *)

Module ThreadedFacts.
Import Threaded.

Lemma animation_events_main (s : state) (p : nat) (t : tpc) (b : bool)
      (e : event) :
  animation_events
    {| pc := p; thread := t; stop_event := b;
       out := out s ++ [(MainFlow, e)] |}
  = animation_events s.
Proof.
  unfold animation_events. cbn [out].
  rewrite filter_app. cbn. rewrite app_nil_r. reflexivity.
Qed.

Lemma animation_events_thread (s : state) (p : nat) (t : tpc) (b : bool)
      (evs : list event) :
  animation_events
    {| pc := p; thread := t; stop_event := b;
       out := out s ++ map (pair Animation) evs |}
  = animation_events s ++ evs.
Proof.
  unfold animation_events. cbn [out].
  rewrite filter_app, map_app. f_equal.
  induction evs as [|e evs IH]; cbn; [reflexivity|]. f_equal. exact IH.
Qed.

Lemma animation_writes_thread (s : state) (p : nat) (t : tpc) (b : bool)
      (evs : list event) :
  animation_writes
    {| pc := p; thread := t; stop_event := b;
       out := out s ++ map (pair Animation) evs |}
  = animation_writes s ++ writes_of evs.
Proof.
  unfold animation_writes.
  rewrite animation_events_thread, writes_of_app. reflexivity.
Qed.

Lemma firstn_succ {A} (l : list A) (n : nat) (x : A) :
  nth_error l n = Some x -> firstn (S n) l = firstn n l ++ [x].
Proof.
  revert n. induction l as [|y l IH]; intros [|n] H; try discriminate H.
  - injection H as ->. reflexivity.
  - cbn [nth_error] in H. change (y :: firstn (S n) l = y :: firstn n l ++ [x]).
    f_equal. apply IH. exact H.
Qed.

(** [start] is the statement before [join], and the only one. *)
Lemma start_before_join (n : nat) :
  nth_error main_prog n = Some ThreadStart ->
  existsb is_join (firstn (S n) main_prog) = false.
Proof.
  do 13 (destruct n as [|n];
         [vm_compute; intros H; (discriminate H || reflexivity)|]).
  destruct n; discriminate.
Qed.

Section Frames.

Variable chars : list str.

Local Notation "'L'" := (Z.of_nat (length chars)).

Lemma steps_trans (s s' s'' : state) :
  steps chars s s' -> steps chars s' s'' -> steps chars s s''.
Proof.
  intros H1 H2. induction H2 as [|s' t u _ IH Hstep].
  - exact H1.
  - eapply steps_next; [apply IH; exact H1 | exact Hstep].
Qed.

(** A schedule that does not get stuck is an execution. *)
Lemma run_steps (sched : list actor) (s s' : state) :
  run chars sched s = Some s' -> steps chars s s'.
Proof.
  revert s. induction sched as [|a sched IH]; intros s H; cbn in H.
  - injection H as <-. apply steps_refl.
  - destruct (step_of chars a s) as [s1|] eqn:E; [|discriminate].
    eapply steps_trans; [|apply IH; exact H].
    eapply steps_next; [apply steps_refl|].
    eapply step_by; exact E.
Qed.

(** A main-flow step leaves the events of the thread as they are. *)
Lemma step_main_events (s s' : state) :
  step_main s = Some s' -> animation_events s' = animation_events s.
Proof.
  unfold step_main. intros H.
  destruct (nth_error main_prog (pc s)) as [[e| | | |]|]; try discriminate.
  - injection H as <-. apply animation_events_main.
  - injection H as <-. reflexivity.
  - destruct (thread s); try discriminate. injection H as <-. reflexivity.
  - injection H as <-. reflexivity.
  - destruct (terminated (thread s)); try discriminate.
    injection H as <-. reflexivity.
Qed.

Lemma step_main_writes (s s' : state) :
  step_main s = Some s' -> animation_writes s' = animation_writes s.
Proof.
  intros H. unfold animation_writes.
  rewrite (step_main_events s s' H). reflexivity.
Qed.

(** Once [join] has returned the thread is over, and it stays so: the
    thread has no step left, and the main flow starts none. *)
Lemma joined_step (s s' : state) :
  (joined s = true -> terminated (thread s) = true) ->
  step chars s s' ->
  joined s' = true -> terminated (thread s') = true.
Proof.
  intros Hs Hstep. destruct Hstep as [[|] s s' Hstep]; cbn in Hstep.
  - unfold step_main in Hstep. unfold joined, executed in *.
    destruct (nth_error main_prog (pc s)) as [[e| | | |]|] eqn:E;
      try discriminate.
    + injection Hstep as <-. cbn [pc thread].
      rewrite (firstn_succ _ _ _ E), existsb_app. cbn. rewrite orb_false_r.
      exact Hs.
    + injection Hstep as <-. cbn [pc thread].
      rewrite (firstn_succ _ _ _ E), existsb_app. cbn. rewrite orb_false_r.
      exact Hs.
    + destruct (thread s); try discriminate. injection Hstep as <-.
      cbn [pc thread]. rewrite (start_before_join _ E). discriminate.
    + injection Hstep as <-. cbn [pc thread].
      rewrite (firstn_succ _ _ _ E), existsb_app. cbn. rewrite orb_false_r.
      exact Hs.
    + destruct (terminated (thread s)) eqn:T; try discriminate.
      injection Hstep as <-. cbn [pc thread]. intros _. exact T.
  - unfold step_thread in Hstep.
    destruct (thread_step chars (stop_event s) (thread s)) as [[t evs]|] eqn:E;
      [|discriminate].
    injection Hstep as <-. unfold joined, executed in *. cbn [pc thread].
    intros J. specialize (Hs J).
    destruct (thread s); try discriminate Hs; discriminate E.
Qed.

Lemma steps_joined (s s' : state) :
  (joined s = true -> terminated (thread s) = true) ->
  steps chars s s' ->
  joined s' = true -> terminated (thread s') = true.
Proof.
  intros Hs H. induction H as [|s s' s'' _ IH Hstep].
  - exact Hs.
  - eapply joined_step; [apply IH; exact Hs | exact Hstep].
Qed.

Lemma reachable_joined (s : state) :
  reachable chars s -> joined s = true -> terminated (thread s) = true.
Proof.
  apply steps_joined. discriminate.
Qed.

(** From a state where the thread is over, a step is a step of the main
    flow: it adds nothing to what the thread has done. *)
Lemma over_step (s s' : state) :
  terminated (thread s) = true ->
  step chars s s' ->
  animation_events s' = animation_events s /\
  terminated (thread s') = true.
Proof.
  intros T Hstep. destruct Hstep as [[|] s s' Hstep]; cbn in Hstep.
  - split; [apply step_main_events; exact Hstep|].
    unfold step_main in Hstep.
    destruct (nth_error main_prog (pc s)) as [[e| | | |]|];
      try discriminate.
    + injection Hstep as <-. exact T.
    + injection Hstep as <-. exact T.
    + destruct (thread s); try discriminate Hstep; discriminate T.
    + injection Hstep as <-. exact T.
    + rewrite T in Hstep. injection Hstep as <-. exact T.
  - unfold step_thread in Hstep.
    destruct (thread s); try discriminate T; discriminate Hstep.
Qed.

Lemma over_steps (s s' : state) :
  terminated (thread s) = true ->
  steps chars s s' ->
  animation_events s' = animation_events s /\
  terminated (thread s') = true.
Proof.
  intros T H. induction H as [|s s' s'' _ IH Hstep].
  - split; [reflexivity | exact T].
  - destruct (IH T) as [He T'].
    destruct (over_step s' s'' T' Hstep) as [He' T''].
    split; [congruence | exact T''].
Qed.

Lemma thread_inv_step (s s' : state) :
  thread_inv chars s -> step chars s s' -> thread_inv chars s'.
Proof.
  intros [Hw Ht] Hstep. destruct Hstep as [[|] s s' Hstep]; cbn in Hstep.
  - (* the main flow moves *)
    pose proof (step_main_writes s s' Hstep) as Hsame.
    unfold thread_inv. rewrite Hsame. split; [exact Hw|].
    unfold step_main in Hstep.
    destruct (nth_error main_prog (pc s)) as [[e| | | |]|]; try discriminate.
    + injection Hstep as <-. exact Ht.
    + injection Hstep as <-. exact Ht.
    + destruct (thread s); try discriminate. injection Hstep as <-.
      cbn [thread]. rewrite Ht. reflexivity.
    + injection Hstep as <-. exact Ht.
    + destruct (terminated (thread s)); try discriminate.
      injection Hstep as <-. exact Ht.
  - (* the thread moves *)
    unfold step_thread in Hstep.
    destruct (thread_step chars (stop_event s) (thread s)) as [[t evs]|] eqn:E;
      [|discriminate].
    injection Hstep as <-.
    unfold thread_inv. rewrite animation_writes_thread. cbn [thread].
    destruct (thread s) as [|i|i|i|i|i| |e]; cbn in E; try discriminate.
    + (* the test of the loop *)
      injection E as <- <-. cbn [writes_of flat_map].
      rewrite app_nil_r. split; [exact Hw|].
      destruct (stop_event s); [exact I | exact Ht].
    + (* the write *)
      destruct (outcome (index chars i)) as [c|e] eqn:Ei.
      * injection E as <- <-.
        assert (Hc : 0 < L /\ c = glyph_at chars
                                   (Z.of_nat (length (animation_writes s)))).
        { unfold index, outcome in Ei.
          destruct (i <? 0) eqn:E1.
          - apply Z.ltb_lt in E1.
            destruct (Z.eq_dec L 0) as [E0|E0].
            + rewrite E0 in *. rewrite Z.mod_0_r in Ht.
              destruct ((0 <=? i + 0) && (i + 0 <? 0)) eqn:E2;
                [|discriminate Ei].
              apply andb_true_iff in E2. destruct E2 as [E2 E3].
              apply Z.ltb_lt in E3. apply Z.leb_le in E2. lia.
            + pose proof (Z.mod_pos_bound
                            (Z.of_nat (length (animation_writes s))) L
                            ltac:(lia)). lia.
          - destruct ((0 <=? i) && (i <? L)) eqn:E2; [|discriminate Ei].
            apply andb_true_iff in E2. destruct E2 as [E2 E3].
            apply Z.ltb_lt in E3. apply Z.leb_le in E2.
            split; [lia|].
            rewrite (nth_error_nth' chars []) in Ei by lia.
            cbn in Ei. injection Ei as <-.
            unfold glyph_at. rewrite <- Ht. reflexivity. }
        destruct Hc as [HL ->].
        cbn [writes_of flat_map app]. rewrite length_app. cbn [length].
        rewrite Nat.add_1_r. split.
        -- rewrite seq_S, map_app, <- Hw. reflexivity.
        -- split; [lia|]. split; [exact HL|]. rewrite Ht. f_equal. lia.
      * injection E as <- <-. cbn [writes_of flat_map].
        rewrite app_nil_r. split; [exact Hw | exact I].
    + (* the flush *)
      injection E as <- <-. cbn [writes_of flat_map app].
      rewrite app_nil_r. split; [exact Hw | exact Ht].
    + (* the increment *)
      destruct Ht as [Hn [HL Hi]].
      unfold mod_, outcome in E.
      destruct (L =? 0) eqn:E0; [apply Z.eqb_eq in E0; lia|].
      cbn in E. injection E as <- <-. cbn [writes_of flat_map].
      rewrite app_nil_r. split; [exact Hw|].
      rewrite Hi, Z.add_mod_idemp_l by lia. f_equal. lia.
    + (* the sleep *)
      injection E as <- <-. cbn [writes_of flat_map app].
      rewrite app_nil_r. split; [exact Hw | exact Ht].
Qed.

Lemma steps_thread_inv (s s' : state) :
  thread_inv chars s -> steps chars s s' -> thread_inv chars s'.
Proof.
  intros Hs H. induction H as [|s s' s'' _ IH Hstep].
  - exact Hs.
  - eapply thread_inv_step; [apply IH; exact Hs | exact Hstep].
Qed.

Lemma reachable_thread_inv (s : state) :
  reachable chars s -> thread_inv chars s.
Proof.
  apply steps_thread_inv. split; reflexivity.
Qed.

End Frames.

End ThreadedFacts.

(** C5. Whatever the (non-empty) frame set: iteration i of the loading
    animation and of each style of the advanced loading demo displays the
    glyph at index i mod frameCount, and so does the k-th frame written by
    the thread of the threaded spinner, in every execution. *)
Theorem spinner_frame_index (chars : list str) (style_name : str) (i : Z)
        (s : Threaded.state) :
  chars <> [] ->
  Threaded.reachable chars s ->
  loading_step chars i =
    (write_with_flush
       (CR ++ glyph_at chars i ++ py " Loading... " ++ of_int (i + 1)
           ++ py "/20") ;;
     time_sleep 100) /\
  style_step style_name chars i =
    (write_with_flush
       (CR ++ glyph_at chars i ++ py " " ++ style_name ++ py " loading...") ;;
     time_sleep 200) /\
  Threaded.animation_writes s =
    map (fun k => CR ++ glyph_at chars (Z.of_nat k) ++ py " Working...")
        (seq 0 (length (Threaded.animation_writes s))).
Proof.
  intros Hne Hs. split; [|split].
  - apply loading_step_glyph; exact Hne.
  - apply style_step_glyph; exact Hne.
  - apply (ThreadedFacts.reachable_thread_inv chars s Hs).
Qed.

Lemma spinner_frame_index_witness :
  Threaded.spinner_chars <> [] /\
  Threaded.reachable Threaded.spinner_chars
    (Threaded.after Threaded.spinner_chars (Threaded.until_join 5)) /\
  loading_step Threaded.spinner_chars 7 =
    (write_with_flush
       (CR ++ glyph_at Threaded.spinner_chars 7 ++ py " Loading... "
           ++ of_int (7 + 1) ++ py "/20") ;;
     time_sleep 100) /\
  style_step (py "spinner") Threaded.spinner_chars 7 =
    (write_with_flush
       (CR ++ glyph_at Threaded.spinner_chars 7 ++ py " "
           ++ py "spinner" ++ py " loading...") ;;
     time_sleep 200) /\
  Threaded.animation_writes
    (Threaded.after Threaded.spinner_chars (Threaded.until_join 5)) =
    map (fun k => CR ++ glyph_at Threaded.spinner_chars (Z.of_nat k)
                     ++ py " Working...")
        (seq 0 (length (Threaded.animation_writes
                          (Threaded.after Threaded.spinner_chars
                             (Threaded.until_join 5))))).
Proof.
  assert (Hne : Threaded.spinner_chars <> []) by discriminate.
  assert (Hr : Threaded.reachable Threaded.spinner_chars
                 (Threaded.after Threaded.spinner_chars
                    (Threaded.until_join 5))).
  { apply (ThreadedFacts.run_steps _ (Threaded.until_join 5)).
    vm_compute. reflexivity. }
  split; [exact Hne|]. split; [exact Hr|].
  exact (spinner_frame_index Threaded.spinner_chars (py "spinner") 7 _ Hne Hr).
Defined.

(** C9. In every execution of the threaded demo, once the main flow has set
    the stop event and its join of the animation thread has returned, the
    thread performs nothing more on the output stream: whatever steps
    follow, its events, and so its writes, stay as they were. *)
Theorem no_write_after_join (chars : list str) (s s' : Threaded.state) :
  Threaded.reachable chars s ->
  Threaded.stop_signalled s = true ->
  Threaded.joined s = true ->
  Threaded.steps chars s s' ->
  Threaded.animation_events s' = Threaded.animation_events s /\
  Threaded.animation_writes s' = Threaded.animation_writes s.
Proof.
  intros Hr _ Hj Hsteps.
  pose proof (ThreadedFacts.reachable_joined chars s Hr Hj) as T.
  destruct (ThreadedFacts.over_steps chars s s' T Hsteps) as [He _].
  split; [exact He|]. unfold Threaded.animation_writes. rewrite He.
  reflexivity.
Qed.

Lemma no_write_after_join_witness :
  Threaded.reachable Threaded.spinner_chars
    (Threaded.after Threaded.spinner_chars (Threaded.until_join 5)) /\
  Threaded.stop_signalled
    (Threaded.after Threaded.spinner_chars (Threaded.until_join 5)) = true /\
  Threaded.joined
    (Threaded.after Threaded.spinner_chars (Threaded.until_join 5)) = true /\
  Threaded.steps Threaded.spinner_chars
    (Threaded.after Threaded.spinner_chars (Threaded.until_join 5))
    (Threaded.after Threaded.spinner_chars
       (Threaded.until_join 5 ++ Threaded.to_the_end)) /\
  Threaded.animation_events
    (Threaded.after Threaded.spinner_chars
       (Threaded.until_join 5 ++ Threaded.to_the_end))
  = Threaded.animation_events
      (Threaded.after Threaded.spinner_chars (Threaded.until_join 5)) /\
  Threaded.animation_writes
    (Threaded.after Threaded.spinner_chars
       (Threaded.until_join 5 ++ Threaded.to_the_end))
  = Threaded.animation_writes
      (Threaded.after Threaded.spinner_chars (Threaded.until_join 5)).
Proof.
  assert (Hr : Threaded.reachable Threaded.spinner_chars
                 (Threaded.after Threaded.spinner_chars
                    (Threaded.until_join 5))).
  { apply (ThreadedFacts.run_steps _ (Threaded.until_join 5)).
    vm_compute. reflexivity. }
  assert (Hs : Threaded.steps Threaded.spinner_chars
                 (Threaded.after Threaded.spinner_chars
                    (Threaded.until_join 5))
                 (Threaded.after Threaded.spinner_chars
                    (Threaded.until_join 5 ++ Threaded.to_the_end))).
  { apply (ThreadedFacts.run_steps _ Threaded.to_the_end).
    vm_compute. reflexivity. }
  split; [exact Hr|]. split; [reflexivity|]. split; [reflexivity|].
  split; [exact Hs|].
  exact (no_write_after_join Threaded.spinner_chars _ _ Hr eq_refl eq_refl Hs).
Defined.

(* ================================================================== *)
(** ** Decimal text of an int, and back *)

Lemma py_ascii (c : ascii) (s : string) :
  (N_of_ascii c < 128)%N -> py (String c s) = N_of_ascii c :: py s.
Proof.
  intros H. unfold py. cbn [list_ascii_of_string map utf8].
  apply N.ltb_lt in H. rewrite H. reflexivity.
Qed.

(** Reading the digits of [d] after those of [d'] gives the number whose
    digits, least significant first, are [revapp d d']. *)
Lemma digits_value_uint (d d' : Decimal.uint) :
  digits_value (Z.of_N (DecimalPos.Unsigned.of_lu d'))
               (py (NilEmpty.string_of_uint d))
  = Some (Z.of_N (DecimalPos.Unsigned.of_lu (Decimal.revapp d d'))).
Proof.
  revert d'.
  induction d as [|d IH|d IH|d IH|d IH|d IH|d IH|d IH|d IH|d IH|d IH];
    intros d'; cbn [NilEmpty.string_of_uint Decimal.revapp];
    [reflexivity|..];
    rewrite py_ascii by (vm_compute; reflexivity);
    match goal with
    | |- context [N_of_ascii ?c] =>
        let v := eval vm_compute in (N_of_ascii c) in
        change (N_of_ascii c) with v
    end;
    cbn [digits_value N.leb N.compare Pos.compare Pos.compare_cont andb];
    rewrite <- IH; f_equal;
    cbn [DecimalPos.Unsigned.of_lu]; lia.
Qed.

(** What [str(n)] gives for a non-negative int reads back as [n]. *)
Lemma parse_of_int (n : Z) : 0 <= n -> parse_int (of_int n) = Some n.
Proof.
  intros H. unfold of_int.
  destruct n as [|p|p]; [reflexivity| |lia].
  cbn [Z.to_int NilZero.string_of_int].
  pose proof (DecimalPos.Unsigned.to_uint_nonnil p) as Hnil.
  pose proof (digits_value_uint (Pos.to_uint p) Decimal.Nil) as Hd.
  cbn [DecimalPos.Unsigned.of_lu Z.of_N] in Hd.
  fold (Decimal.rev (Pos.to_uint p)) in Hd.
  rewrite <- DecimalPos.Unsigned.of_uint_alt in Hd.
  rewrite DecimalPos.Unsigned.of_to in Hd.
  unfold NilZero.string_of_uint.
  destruct (Pos.to_uint p) eqn:E; [contradiction| ..];
    cbn [NilEmpty.string_of_uint] in *; unfold parse_int;
    (rewrite py_ascii by (vm_compute; reflexivity));
    rewrite py_ascii in Hd by (vm_compute; reflexivity); exact Hd.
Qed.

(** The text of a negative int starts with a minus sign: it is no run of
    digits. *)
Lemma parse_of_int_negative (n : Z) : n < 0 -> parse_int (of_int n) = None.
Proof.
  intros H. unfold of_int.
  destruct n as [|p|p]; [lia|lia|].
  cbn [Z.to_int NilZero.string_of_int].
  rewrite py_ascii by (vm_compute; reflexivity). reflexivity.
Qed.

Lemma eqb_refl (s : str) : Str.eqb s s = true.
Proof. unfold Str.eqb. destruct (list_eq_dec N.eq_dec s s); congruence. Qed.

Lemma strip_prefix_app (p s : str) : strip_prefix p (p ++ s) = Some s.
Proof.
  unfold strip_prefix, starts_with.
  rewrite firstn_app, Nat.sub_diag, firstn_all, firstn_O, app_nil_r.
  rewrite eqb_refl, skipn_app, skipn_all, Nat.sub_diag. reflexivity.
Qed.

(** X1. Every frame of the countdown format reads back as its counter: the
    text after "Countdown: " is the decimal writing of [i], for every
    counter from 0 up, so that two counters never share a frame. *)
Theorem countdown_frame_decodes (i j : Z) :
  0 <= i -> 0 <= j ->
  read_counter (countdown_frame i) = Some i /\
  (countdown_frame i = countdown_frame j -> i = j).
Proof.
  intros Hi Hj.
  assert (R : forall k, 0 <= k -> read_counter (countdown_frame k) = Some k).
  { intros k Hk. unfold read_counter, countdown_frame.
    rewrite app_assoc, strip_prefix_app. apply parse_of_int; exact Hk. }
  split; [apply R; exact Hi|].
  intros E. pose proof (R i Hi) as Ri. rewrite E, (R j Hj) in Ri.
  congruence.
Qed.

Lemma countdown_frame_decodes_witness :
  0 <= 10 /\ 0 <= 9 /\
  read_counter (countdown_frame 10) = Some 10 /\
  (countdown_frame 10 = countdown_frame 9 -> 10 = 9).
Proof.
  split; [lia|]. split; [lia|].
  apply (countdown_frame_decodes 10 9); lia.
Defined.

Lemma parse_cursor_seq (n : Z) (c : N) :
  parse_cursor (ESC ++ py "[" ++ of_int n ++ [c]) =
    match parse_int (of_int n) with
    | Some k =>
        if Str.eqb [c] (py "A") then Some (Up, k)
        else if Str.eqb [c] (py "B") then Some (Down, k)
        else None
    | None => None
    end.
Proof.
  unfold parse_cursor.
  rewrite (app_assoc ESC), strip_prefix_app, removelast_last, last_last.
  reflexivity.
Qed.

(** X2. For a row count that is not negative, [move_cursor_up] and
    [move_cursor_down] each write one string, the ANSI sequence
    [ESC [ n A] (resp. [B]) whose parameter reads back as the count, and
    flush it. *)
Theorem cursor_sequences_decode (lines : Z) :
  0 <= lines ->
  (exists w, move_cursor_up lines = write_with_flush w /\
             parse_cursor w = Some (Up, lines)) /\
  (exists w, move_cursor_down lines = write_with_flush w /\
             parse_cursor w = Some (Down, lines)).
Proof.
  intros H. split; eexists; (split; [reflexivity|]);
    change (py "A") with [65%N]; change (py "B") with [66%N];
    rewrite parse_cursor_seq, parse_of_int by exact H; reflexivity.
Qed.

Lemma cursor_sequences_decode_witness :
  0 <= 3 /\
  (exists w, move_cursor_up 3 = write_with_flush w /\
             parse_cursor w = Some (Up, 3)) /\
  (exists w, move_cursor_down 3 = write_with_flush w /\
             parse_cursor w = Some (Down, 3)).
Proof.
  split; [lia | apply (cursor_sequences_decode 3); lia].
Defined.

(** X3. Nothing guards the row count: for a negative one the functions
    still write, and what they write (a minus sign after the bracket) is
    not a cursor-movement sequence. *)
Theorem cursor_negative_malformed (lines : Z) :
  lines < 0 ->
  (exists w, move_cursor_up lines = write_with_flush w /\
             parse_cursor w = None) /\
  (exists w, move_cursor_down lines = write_with_flush w /\
             parse_cursor w = None).
Proof.
  intros H. split; eexists; (split; [reflexivity|]);
    change (py "A") with [65%N]; change (py "B") with [66%N];
    rewrite parse_cursor_seq, parse_of_int_negative by exact H; reflexivity.
Qed.

Lemma cursor_negative_malformed_witness :
  -1 < 0 /\
  (exists w, move_cursor_up (-1) = write_with_flush w /\
             parse_cursor w = None) /\
  (exists w, move_cursor_down (-1) = write_with_flush w /\
             parse_cursor w = None).
Proof.
  split; [lia | apply (cursor_negative_malformed (-1)); lia].
Defined.

(* ================================================================== *)
(** ** The frames of the progress bar *)

Lemma percentage_ok_all : forallb percentage_ok (range 51) = true.
Proof. vm_compute. reflexivity. Qed.

Lemma frames_grow_all : forallb frames_grow (range 51) = true.
Proof. vm_compute. reflexivity. Qed.

Lemma percentage_shown (i : Z) :
  0 <= i <= 50 -> percentage 50 i = ret (shown_percentage i).
Proof.
  intros H.
  pose proof (proj1 (forallb_forall _ _) percentage_ok_all i) as Hi.
  specialize (Hi (range_In 51 i ltac:(lia))).
  unfold percentage_ok in Hi.
  destruct (percentage 50 i) as [[|ev t] [z|e]]; try discriminate.
  apply Z.eqb_eq in Hi. subst z. reflexivity.
Qed.

(** Each pass of the loop writes [progress_frame i]. *)
Lemma progress_step_writes_frame (i : Z) :
  0 <= i <= 50 ->
  progress_step 50 30 i
  = (write_with_flush (progress_frame i) ;; time_sleep 50).
Proof.
  intros H. rewrite progress_step_locals.
  rewrite (filled_width_floor i H), (percentage_shown i H).
  reflexivity.
Qed.

(** X4. Iteration [i] of the progress bar, for every [i] from 0 to 50,
    writes exactly this frame, flushes and sleeps 50 ms: the carriage
    return, a bar of floor(30 * i / 50) solid glyphs padded to 30 with empty
    ones, the percentage and the counts.  The percentage is
    floor(100 * i / 50) except at i = 29, where it is 57. *)
Theorem progress_step_frame_exact (i : Z) :
  0 <= i <= 50 ->
  percentage 50 i = ret (if i =? 29 then 57 else 100 * i / 50) /\
  progress_step 50 30 i =
    (write_with_flush
       (CR ++ py "Progress: ["
           ++ (times (py "█") (30 * i / 50)
               ++ times (py "░") (30 - 30 * i / 50))
           ++ py "] " ++ of_int (if i =? 29 then 57 else 100 * i / 50)
           ++ py "% (" ++ of_int i ++ py "/50)") ;;
     time_sleep 50).
Proof.
  intros H. split; [apply percentage_shown; exact H|].
  rewrite (progress_step_writes_frame i H). reflexivity.
Qed.

Lemma progress_step_frame_exact_witness :
  0 <= 29 <= 50 /\
  percentage 50 29 = ret (if 29 =? 29 then 57 else 100 * 29 / 50) /\
  progress_step 50 30 29 =
    (write_with_flush
       (CR ++ py "Progress: ["
           ++ (times (py "█") (30 * 29 / 50)
               ++ times (py "░") (30 - 30 * 29 / 50))
           ++ py "] " ++ of_int (if 29 =? 29 then 57 else 100 * 29 / 50)
           ++ py "% (" ++ of_int 29 ++ py "/50)") ;;
     time_sleep 50).
Proof.
  split; [lia | apply (progress_step_frame_exact 29); lia].
Defined.

(** X5. The frames of the progress bar never get shorter: the frame of a
    later iteration has at least as many visible characters as the frame of
    an earlier one, so that each overwrite by carriage return covers the
    frame before it. *)
Theorem progress_frames_never_shrink (i j : Z) :
  0 <= i <= j -> j <= 50 ->
  written (progress_step 50 30 i) = [progress_frame i] /\
  written (progress_step 50 30 j) = [progress_frame j] /\
  visible_len (progress_frame i) <= visible_len (progress_frame j).
Proof.
  intros Hij Hj.
  rewrite !progress_step_writes_frame by lia.
  split; [reflexivity|]. split; [reflexivity|].
  pose proof (proj1 (forallb_forall _ _) frames_grow_all i
                (range_In 51 i ltac:(lia))) as Hi.
  unfold frames_grow in Hi.
  pose proof (proj1 (forallb_forall _ _) Hi j (range_In 51 j ltac:(lia)))
    as Hg.
  apply orb_true_iff in Hg. destruct Hg as [Hg|Hg].
  - apply Z.ltb_lt in Hg. lia.
  - apply Z.leb_le in Hg. exact Hg.
Qed.

Lemma progress_frames_never_shrink_witness :
  0 <= 4 <= 5 /\ 5 <= 50 /\
  written (progress_step 50 30 4) = [progress_frame 4] /\
  written (progress_step 50 30 5) = [progress_frame 5] /\
  visible_len (progress_frame 4) <= visible_len (progress_frame 5).
Proof.
  split; [lia|]. split; [lia|].
  apply (progress_frames_never_shrink 4 5); lia.
Defined.

(* ================================================================== *)
(** ** Any style of the advanced loading demo *)

Lemma visible_len_app (s t : str) :
  visible_len (s ++ t) = visible_len s + visible_len t.
Proof.
  unfold visible_len. rewrite filter_app, length_app. lia.
Qed.

Lemma is_visible_cased (c : N) (after_letter : bool) :
  is_visible
    (if is_lower c || is_upper c
     then (if after_letter then lower c else upper c) else c)
  = is_visible c.
Proof.
  unfold is_visible, lower, upper, is_lower, is_upper.
  destruct (N.leb_spec 97 c), (N.leb_spec c 122), (N.leb_spec 65 c),
    (N.leb_spec c 90); cbn [andb orb]; try lia;
    destruct after_letter; try reflexivity;
    repeat match goal with
           | |- context [(?a <=? ?b)%N] => destruct (N.leb_spec a b)
           | |- context [(?a =? ?b)%N] => destruct (N.eqb_spec a b)
           end; cbn [andb negb]; try reflexivity; lia.
Qed.

(** [title] changes the case of letters only: the visible length stays. *)
Lemma visible_title_from (b : bool) (s : str) :
  length (filter is_visible (title_from b s))
  = length (filter is_visible s).
Proof.
  revert b. induction s as [|c s IH]; intros b; [reflexivity|].
  cbn [title_from filter]. rewrite is_visible_cased.
  destruct (is_visible c); cbn [length]; rewrite IH; reflexivity.
Qed.

Lemma visible_len_title (s : str) : visible_len (title s) = visible_len s.
Proof.
  unfold visible_len, title. rewrite visible_title_from. reflexivity.
Qed.

Lemma writes_of_frames {A} (l : list A) (frame : A -> str) (ms : Z) :
  writes_of (flat_map (fun x => [Write (frame x); Flush; Sleep ms]) l)
  = map frame l.
Proof.
  induction l as [|x l IH]; cbn; [reflexivity|]. f_equal. exact IH.
Qed.

Section AnyStyle.

Variable style_name : str.
Variable chars : list str.
Hypothesis chars_nonempty : chars <> [].

(** What a run over one style writes: the heading, the ten frames, the
    completion line. *)
Lemma style_run_writes :
  written (style_run (style_name, chars)) =
    [LF ++ title style_name ++ py " animation:"; LF]
    ++ map (style_frame style_name chars) (range 10)
    ++ [style_done style_name].
Proof.
  unfold style_run, written.
  rewrite (for_events (range 10) _
             (fun i => [Write (style_frame style_name chars i); Flush;
                        Sleep 200])).
  - cbn [bind print sys_stdout_write write_with_flush sys_stdout_flush
           events fst app].
    repeat (rewrite writes_of_Write || rewrite writes_of_app).
    rewrite writes_of_frames. reflexivity.
  - intros i _. rewrite style_step_glyph by exact chars_nonempty.
    reflexivity.
Qed.

Lemma style_run_overwrites :
  overwrites (style_run (style_name, chars)) =
    map (style_frame style_name chars) (range 10) ++ [style_done style_name].
Proof.
  unfold overwrites. rewrite style_run_writes.
  cbn [app filter]. rewrite filter_app.
  change (starts_with CR (LF ++ title style_name ++ py " animation:"))
    with false.
  change (starts_with CR LF) with false. cbv iota.
  reflexivity.
Qed.

End AnyStyle.

(** X6. For any style name written in ASCII (where [title] is what
    Python's [str.title] does) and any non-empty frame set whose glyphs have
    at most five visible characters, the completion line of the style
    covers every frame of its animation: the padding of five spaces is what
    makes up for "loading..." being longer than "complete!". *)
Theorem style_completion_covers (style_name : str) (chars : list str) :
  Forall (fun c => (c < 128)%N) style_name ->
  chars <> [] ->
  Forall (fun g => visible_len g <= 5) chars ->
  covered_by (style_run (style_name, chars)) (style_done style_name).
Proof.
  intros _ Hne Hg.
  exists (map (style_frame style_name chars) (range 10)). split.
  - apply style_run_overwrites; exact Hne.
  - apply Forall_forall. intros w Hw.
    apply in_map_iff in Hw. destruct Hw as [i [<- _]].
    assert (Hi : visible_len (glyph_at chars i) <= 5).
    { apply (proj1 (Forall_forall _ _) Hg). unfold glyph_at.
      apply nth_In.
      assert (0 < Z.of_nat (length chars))
        by (destruct chars; [contradiction | cbn [length]; lia]).
      pose proof (Z.mod_pos_bound i (Z.of_nat (length chars)) H). lia. }
    unfold style_frame, style_done.
    rewrite !visible_len_app, visible_len_title.
    change (visible_len CR) with 0.
    change (visible_len (py " ")) with 1.
    change (visible_len (py " loading...")) with 11.
    change (visible_len (py "✅ ")) with 2.
    change (visible_len (py " complete!     ")) with 15.
    change (visible_len LF) with 0.
    lia.
Qed.

Lemma style_completion_covers_witness :
  Forall (fun c => (c < 128)%N) (py "bars") /\
  [py "▌"; py "▀"; py "▐"; py "▄"] <> [] /\
  Forall (fun g => visible_len g <= 5) [py "▌"; py "▀"; py "▐"; py "▄"] /\
  covered_by (style_run (py "bars", [py "▌"; py "▀"; py "▐"; py "▄"]))
             (style_done (py "bars")).
Proof.
  assert (Ha : Forall (fun c => (c < 128)%N) (py "bars"))
    by (repeat constructor).
  assert (Hne : [py "▌"; py "▀"; py "▐"; py "▄"] <> []) by discriminate.
  assert (Hg : Forall (fun g => visible_len g <= 5)
                      [py "▌"; py "▀"; py "▐"; py "▄"])
    by (repeat constructor; vm_compute; discriminate).
  split; [exact Ha|]. split; [exact Hne|]. split; [exact Hg|].
  exact (style_completion_covers (py "bars") _ Ha Hne Hg).
Defined.

(* ================================================================== *)
(** ** What [main] lets out *)

(** An exception that is neither an [Exception] nor a
    [KeyboardInterrupt] passes through the loop. *)
Lemma run_demos_escape (d : demo) (rest : list demo) (e : exn) :
  outcome (call d) = Raise e ->
  is_Exception e = false -> e <> KeyboardInterrupt ->
  run_demos (d :: rest) = (events (call d), Raise e).
Proof.
  unfold run_demos, outcome, events. cbn [for_ctl].
  destruct (call d) as [t [[]|e']]; cbn; intros H He Hk; try discriminate H.
  injection H as ->.
  destruct e; try discriminate He; [contradiction|reflexivity].
Qed.

Lemma main_with_run (ds : list demo) :
  main_with ds =
    match outcome (run_demos ds) with
    | Ok _ => (main_header ++ events (run_demos ds) ++ main_footer, Ok tt)
    | Raise e => (main_header ++ events (run_demos ds), Raise e)
    end.
Proof.
  unfold main_with, outcome, events.
  destruct (run_demos ds) as [t [[]|e]]; cbn; [|reflexivity].
  rewrite <- ?app_assoc. reflexivity.
Qed.

(** The loop ends normally, or on an exception of a demo that is neither an
    [Exception] nor a [KeyboardInterrupt]. *)
Lemma run_demos_outcome (ds : list demo) :
  outcome (run_demos ds) = Ok tt \/
  exists d e,
    In d ds /\ outcome (call d) = Raise e /\
    outcome (run_demos ds) = Raise e /\
    is_Exception e = false /\ e <> KeyboardInterrupt.
Proof.
  induction ds as [|d ds IH]; [left; reflexivity|].
  destruct (passes d) eqn:P.
  - rewrite run_demos_pass by exact P. cbn [outcome snd].
    destruct IH as [IH|[d' [e [Hin H]]]]; [left; exact IH|].
    right. exists d', e. split; [right; exact Hin | exact H].
  - unfold passes in P.
    destruct (outcome (call d)) as [[]|e] eqn:E; [discriminate P|].
    destruct e; try discriminate P.
    + left. rewrite run_demos_interrupt by exact E. reflexivity.
    + right. exists d, SystemExit.
      split; [left; reflexivity|]. split; [exact E|].
      rewrite (run_demos_escape d ds SystemExit E eq_refl) by discriminate.
      repeat split; discriminate.
Qed.

(** X7. Whatever the demos do, [main] never lets an error or a user
    interrupt of a demo out: it returns normally, or it ends on an exception
    raised by one of the demos that is neither an [Exception] nor a
    [KeyboardInterrupt]. *)
Theorem main_contains_errors (ds : list demo) :
  outcome (main_with ds) = Ok tt \/
  exists d e,
    In d ds /\ outcome (call d) = Raise e /\
    outcome (main_with ds) = Raise e /\
    is_Exception e = false /\ e <> KeyboardInterrupt.
Proof.
  rewrite main_with_run.
  destruct (run_demos_outcome ds) as [H|[d [e [Hin [Hd [H He]]]]]].
  - left. rewrite H. reflexivity.
  - right. exists d, e. rewrite H. repeat split; tauto.
Qed.

(** X8. After a user interrupt the loop is left, but [main] goes on to its
    closing lines: the notice is followed by the rule and by
    "All demos completed!", and [main] returns normally. *)
Theorem main_interrupted_still_closes (pre post : list demo) (d : demo) :
  forallb passes pre = true ->
  outcome (call d) = Raise KeyboardInterrupt ->
  main_with (pre ++ d :: post)
  = (main_header ++ flat_map handled pre ++ events (call d)
       ++ events (print interrupt_notice)
       ++ events (print (LF ++ rule) ;;
                  print (py "All demos completed!") ;;
                  print rule),
     Ok tt).
Proof.
  intros Hpre Hd. rewrite main_with_run.
  rewrite run_demos_app_pass by exact Hpre.
  rewrite run_demos_interrupt by exact Hd.
  cbn [outcome events fst snd]. rewrite <- !app_assoc. reflexivity.
Qed.

Lemma main_interrupted_still_closes_witness :
  forallb passes [probe_returns; probe_raises] = true /\
  outcome (call probe_interrupted) = Raise KeyboardInterrupt /\
  main_with ([probe_returns; probe_raises] ++ probe_interrupted
             :: [probe_returns])
  = (main_header ++ flat_map handled [probe_returns; probe_raises]
       ++ events (call probe_interrupted)
       ++ events (print interrupt_notice)
       ++ events (print (LF ++ rule) ;;
                  print (py "All demos completed!") ;;
                  print rule),
     Ok tt).
Proof.
  split; [reflexivity|]. split; [reflexivity|].
  exact (main_interrupted_still_closes [probe_returns; probe_raises]
           [probe_returns] probe_interrupted eq_refl eq_refl).
Defined.

(** X9. An exception of a demo that is neither an [Exception] nor a
    [KeyboardInterrupt] (a [SystemExit]) is not handled: [main] ends on it
    right after the output of that demo, with no report, no later demo and
    no closing line. *)
Theorem main_lets_exit_through (pre post : list demo) (d : demo) (e : exn) :
  forallb passes pre = true ->
  outcome (call d) = Raise e ->
  is_Exception e = false -> e <> KeyboardInterrupt ->
  main_with (pre ++ d :: post)
  = (main_header ++ flat_map handled pre ++ events (call d), Raise e).
Proof.
  intros Hpre Hd He Hk. rewrite main_with_run.
  rewrite run_demos_app_pass by exact Hpre.
  rewrite (run_demos_escape d post e Hd He Hk).
  cbn [outcome events fst snd]. reflexivity.
Qed.

Lemma main_lets_exit_through_witness :
  forallb passes [probe_returns; probe_raises] = true /\
  outcome (call probe_exits) = Raise SystemExit /\
  is_Exception SystemExit = false /\ SystemExit <> KeyboardInterrupt /\
  main_with ([probe_returns; probe_raises] ++ probe_exits :: [probe_returns])
  = (main_header ++ flat_map handled [probe_returns; probe_raises]
       ++ events (call probe_exits),
     Raise SystemExit).
Proof.
  assert (Hk : SystemExit <> KeyboardInterrupt) by discriminate.
  split; [reflexivity|]. split; [reflexivity|]. split; [reflexivity|].
  split; [exact Hk|].
  exact (main_lets_exit_through [probe_returns; probe_raises]
           [probe_returns] probe_exits SystemExit eq_refl eq_refl eq_refl Hk).
Defined.

(* ================================================================== *)
(** ** More on the threaded spinner *)

Module ThreadedMore.
Import Threaded ThreadedFacts ThreadedAux.

(** [Event()] is created before [set], and only there. *)
Lemma new_before_set (n : nat) :
  nth_error main_prog n = Some EventNew ->
  existsb is_set (firstn (S n) main_prog) = false.
Proof.
  do 13 (destruct n as [|n];
         [vm_compute; intros H; (discriminate H || reflexivity)|]).
  destruct n; discriminate.
Qed.

Section Frames.

Variable chars : list str.

Local Notation "'L'" := (Z.of_nat (length chars)).

(** *** The thread does not raise *)

Lemma alive_step (s s' : state) :
  chars <> [] ->
  thread_inv chars s ->
  (forall e, thread s <> Died e) ->
  step chars s s' ->
  forall e, thread s' <> Died e.
Proof.
  intros Hne [Hw Ht] Ha Hstep. destruct Hstep as [[|] s s' Hstep];
    cbn in Hstep.
  - unfold step_main in Hstep.
    destruct (nth_error main_prog (pc s)) as [[e| | | |]|]; try discriminate.
    + injection Hstep as <-. exact Ha.
    + injection Hstep as <-. exact Ha.
    + destruct (thread s); try discriminate. injection Hstep as <-.
      discriminate.
    + injection Hstep as <-. exact Ha.
    + destruct (terminated (thread s)); try discriminate.
      injection Hstep as <-. exact Ha.
  - unfold step_thread in Hstep.
    destruct (thread_step chars (stop_event s) (thread s)) as [[t evs]|] eqn:E;
      [|discriminate].
    injection Hstep as <-. cbn [thread].
    destruct (thread s) as [|i|i|i|i|i| |e]; cbn in E; try discriminate.
    + injection E as <- _. destruct (stop_event s); discriminate.
    + assert (Hi : 0 <= i < L).
      { rewrite Ht. apply Z.mod_pos_bound.
        destruct chars; [contradiction | cbn [length]; lia]. }
      rewrite (index_in_range chars i Hi) in E. cbn in E.
      injection E as <- _. discriminate.
    + injection E as <- _. discriminate.
    + rewrite (mod_frame_count chars Hne) in E. cbn in E.
      injection E as <- _. discriminate.
    + injection E as <- _. discriminate.
Qed.

Lemma alive_steps (s s' : state) :
  chars <> [] ->
  thread_inv chars s ->
  (forall e, thread s <> Died e) ->
  steps chars s s' ->
  forall e, thread s' <> Died e.
Proof.
  intros Hne Hinv Ha H. induction H as [|s s' s'' H IH Hstep].
  - exact Ha.
  - eapply alive_step; [exact Hne | | apply IH; assumption | exact Hstep].
    eapply steps_thread_inv; [exact Hinv | exact H].
Qed.

(** *** Once the stop event is set *)

Lemma stop_kept_step (s s' : state) :
  (stop_signalled s = true -> stop_event s = true) ->
  step chars s s' ->
  stop_signalled s' = true -> stop_event s' = true.
Proof.
  intros Hs Hstep. destruct Hstep as [[|] s s' Hstep]; cbn in Hstep.
  - unfold step_main in Hstep. unfold stop_signalled, executed in *.
    destruct (nth_error main_prog (pc s)) as [[e| | | |]|] eqn:E;
      try discriminate.
    + injection Hstep as <-. cbn [pc stop_event].
      rewrite (firstn_succ _ _ _ E), existsb_app. cbn. rewrite orb_false_r.
      exact Hs.
    + injection Hstep as <-. cbn [pc stop_event].
      rewrite (new_before_set _ E). discriminate.
    + destruct (thread s); try discriminate. injection Hstep as <-.
      cbn [pc stop_event].
      rewrite (firstn_succ _ _ _ E), existsb_app. cbn. rewrite orb_false_r.
      exact Hs.
    + injection Hstep as <-. reflexivity.
    + destruct (terminated (thread s)); try discriminate.
      injection Hstep as <-. cbn [pc stop_event].
      rewrite (firstn_succ _ _ _ E), existsb_app. cbn. rewrite orb_false_r.
      exact Hs.
  - unfold step_thread in Hstep.
    destruct (thread_step chars (stop_event s) (thread s)) as [[t evs]|];
      [|discriminate].
    injection Hstep as <-. exact Hs.
Qed.

Lemma stop_kept_steps (s s' : state) :
  (stop_signalled s = true -> stop_event s = true) ->
  steps chars s s' ->
  stop_signalled s' = true -> stop_event s' = true.
Proof.
  intros Hs H. induction H as [|s s' s'' _ IH Hstep].
  - exact Hs.
  - eapply stop_kept_step; [apply IH; exact Hs | exact Hstep].
Qed.

Lemma signalled_step (s s' : state) :
  step chars s s' -> stop_signalled s = true -> stop_signalled s' = true.
Proof.
  intros Hstep. destruct Hstep as [[|] s s' Hstep]; cbn in Hstep.
  - unfold step_main in Hstep. unfold stop_signalled, executed.
    destruct (nth_error main_prog (pc s)) as [[e| | | |]|] eqn:E;
      try discriminate;
      [ | | destruct (thread s); try discriminate | |
        destruct (terminated (thread s)); try discriminate ];
      injection Hstep as <-; cbn [pc];
      rewrite (firstn_succ _ _ _ E), existsb_app; intros ->; reflexivity.
  - unfold step_thread in Hstep.
    destruct (thread_step chars (stop_event s) (thread s)) as [[t evs]|];
      [|discriminate].
    injection Hstep as <-. intros H. exact H.
Qed.

(** With the stop event set, a step does not raise the number of frames
    written plus the number of frames pending. *)
Lemma budget_step (s s' : state) :
  stop_event s = true ->
  step chars s s' ->
  (length (animation_writes s') + pending (thread s')
   <= length (animation_writes s) + pending (thread s))%nat.
Proof.
  intros Hstop Hstep. destruct Hstep as [[|] s s' Hstep]; cbn in Hstep.
  - rewrite (step_main_writes s s' Hstep).
    unfold step_main in Hstep.
    destruct (nth_error main_prog (pc s)) as [[e| | | |]|];
      try discriminate;
      [ | | destruct (thread s); try discriminate | |
        destruct (terminated (thread s)); try discriminate ];
      injection Hstep as <-; cbn [thread pending]; lia.
  - unfold step_thread in Hstep. rewrite Hstop in Hstep.
    destruct (thread_step chars true (thread s)) as [[t evs]|] eqn:E;
      [|discriminate].
    injection Hstep as <-. rewrite animation_writes_thread, length_app.
    cbn [thread].
    destruct (thread s) as [|i|i|i|i|i| |e]; cbn in E; try discriminate.
    + injection E as <- <-. cbn. lia.
    + destruct (outcome (index chars i)); injection E as <- <-; cbn; lia.
    + injection E as <- <-. cbn. lia.
    + destruct (outcome (mod_ (i + 1) L)); injection E as <- <-; cbn; lia.
    + injection E as <- <-. cbn. lia.
Qed.

Lemma budget_steps (s s' : state) :
  (stop_signalled s = true -> stop_event s = true) ->
  stop_signalled s = true ->
  steps chars s s' ->
  stop_signalled s' = true /\
  (length (animation_writes s') + pending (thread s')
   <= length (animation_writes s) + pending (thread s))%nat.
Proof.
  intros Hk Hsig H. induction H as [|s s' s'' H IH Hstep].
  - split; [exact Hsig | lia].
  - destruct (IH Hk Hsig) as [Hsig' Hb].
    split; [eapply signalled_step; eassumption|].
    assert (Hstop : stop_event s' = true)
      by (eapply stop_kept_steps; eassumption).
    pose proof (budget_step s' s'' Hstop Hstep). lia.
Qed.

(** *** The main flow's own output *)

Lemma main_events_step (s s' : state) :
  main_events s = emitted (executed s) ->
  step chars s s' ->
  main_events s' = emitted (executed s').
Proof.
  intros Hs Hstep. destruct Hstep as [[|] s s' Hstep]; cbn in Hstep.
  - unfold step_main in Hstep. unfold executed in *.
    destruct (nth_error main_prog (pc s)) as [[e| | | |]|] eqn:E;
      try discriminate;
      [ | | destruct (thread s); try discriminate | |
        destruct (terminated (thread s)); try discriminate ];
      injection Hstep as <-; cbn [pc];
      rewrite (firstn_succ _ _ _ E); unfold emitted;
      rewrite flat_map_app; fold (emitted (firstn (pc s) main_prog));
      rewrite <- Hs; unfold main_events; cbn [out flat_map];
      rewrite ?filter_app, ?map_app; cbn; rewrite ?app_nil_r; reflexivity.
  - unfold step_thread in Hstep.
    destruct (thread_step chars (stop_event s) (thread s)) as [[t evs]|];
      [|discriminate].
    injection Hstep as <-. unfold executed in *. cbn [pc]. rewrite <- Hs.
    unfold main_events. cbn [out]. rewrite filter_app, map_app.
    replace (filter _ (map (pair Animation) evs)) with (@nil (actor * event)).
    + cbn. rewrite app_nil_r. reflexivity.
    + induction evs as [|e evs IH]; [reflexivity | exact IH].
Qed.

Lemma main_events_steps (s s' : state) :
  main_events s = emitted (executed s) ->
  steps chars s s' ->
  main_events s' = emitted (executed s').
Proof.
  intros Hs H. induction H as [|s s' s'' _ IH Hstep].
  - exact Hs.
  - eapply main_events_step; [apply IH; exact Hs | exact Hstep].
Qed.

End Frames.

End ThreadedMore.

(** X10. With a non-empty frame set the animation thread never raises: in
    every execution its counter, when it indexes the frame set, is within
    [0, len(chars)), and the thread is never ended by an exception. *)
Theorem animation_thread_never_raises (chars : list str)
        (s : Threaded.state) :
  chars <> [] ->
  Threaded.reachable chars s ->
  (forall e, Threaded.thread s <> Threaded.Died e) /\
  (forall i, Threaded.thread s = Threaded.AtWrite i ->
             0 <= i < Z.of_nat (length chars)).
Proof.
  intros Hne Hr. split.
  - apply (ThreadedMore.alive_steps chars Threaded.init s Hne);
      [split; reflexivity | discriminate | exact Hr].
  - intros i Hi.
    destruct (ThreadedFacts.reachable_thread_inv chars s Hr) as [_ Ht].
    rewrite Hi in Ht. rewrite Ht. apply Z.mod_pos_bound.
    destruct chars; [contradiction | cbn [length]; lia].
Qed.

Lemma animation_thread_never_raises_witness :
  Threaded.spinner_chars <> [] /\
  Threaded.reachable Threaded.spinner_chars
    (Threaded.after Threaded.spinner_chars
       (repeat Threaded.MainFlow 4 ++ repeat Threaded.Animation 7)) /\
  (forall e,
     Threaded.thread
       (Threaded.after Threaded.spinner_chars
          (repeat Threaded.MainFlow 4 ++ repeat Threaded.Animation 7))
     <> Threaded.Died e) /\
  (forall i,
     Threaded.thread
       (Threaded.after Threaded.spinner_chars
          (repeat Threaded.MainFlow 4 ++ repeat Threaded.Animation 7))
     = Threaded.AtWrite i ->
     0 <= i < Z.of_nat (length Threaded.spinner_chars)).
Proof.
  assert (Hne : Threaded.spinner_chars <> []) by discriminate.
  assert (Hr : Threaded.reachable Threaded.spinner_chars
                 (Threaded.after Threaded.spinner_chars
                    (repeat Threaded.MainFlow 4
                     ++ repeat Threaded.Animation 7))).
  { apply (ThreadedFacts.run_steps _
             (repeat Threaded.MainFlow 4 ++ repeat Threaded.Animation 7)).
    vm_compute. reflexivity. }
  split; [exact Hne|]. split; [exact Hr|].
  exact (animation_thread_never_raises Threaded.spinner_chars _ Hne Hr).
Defined.

(** X11. Once the main flow has set the stop event, the thread writes at
    most one more frame, in every execution and whatever the frame set: it
    has either passed the test of its loop already, and writes the frame of
    that pass, or it leaves the loop at the next test. *)
Theorem at_most_one_frame_after_stop (chars : list str)
        (s s' : Threaded.state) :
  Threaded.reachable chars s ->
  Threaded.stop_signalled s = true ->
  Threaded.steps chars s s' ->
  (length (Threaded.animation_writes s')
   <= length (Threaded.animation_writes s) + 1)%nat.
Proof.
  intros Hr Hsig Hsteps.
  assert (Hk : Threaded.stop_signalled s = true ->
               Threaded.stop_event s = true).
  { apply (ThreadedMore.stop_kept_steps chars Threaded.init s);
      [discriminate | exact Hr]. }
  destruct (ThreadedMore.budget_steps chars s s' Hk Hsig Hsteps) as [_ Hb].
  assert (ThreadedAux.pending (Threaded.thread s) <= 1)%nat
    by (destruct (Threaded.thread s); cbn; lia).
  lia.
Qed.

Lemma at_most_one_frame_after_stop_witness :
  Threaded.reachable Threaded.spinner_chars
    (Threaded.after Threaded.spinner_chars ThreadedAux.stop_then_frame) /\
  Threaded.stop_signalled
    (Threaded.after Threaded.spinner_chars ThreadedAux.stop_then_frame)
    = true /\
  Threaded.steps Threaded.spinner_chars
    (Threaded.after Threaded.spinner_chars ThreadedAux.stop_then_frame)
    (Threaded.after Threaded.spinner_chars
       (ThreadedAux.stop_then_frame ++ ThreadedAux.last_pass)) /\
  (length (Threaded.animation_writes
             (Threaded.after Threaded.spinner_chars
                (ThreadedAux.stop_then_frame ++ ThreadedAux.last_pass)))
   <= length (Threaded.animation_writes
                (Threaded.after Threaded.spinner_chars
                   ThreadedAux.stop_then_frame)) + 1)%nat.
Proof.
  assert (Hr : Threaded.reachable Threaded.spinner_chars
                 (Threaded.after Threaded.spinner_chars
                    ThreadedAux.stop_then_frame)).
  { apply (ThreadedFacts.run_steps _ ThreadedAux.stop_then_frame).
    vm_compute. reflexivity. }
  assert (Hs : Threaded.steps Threaded.spinner_chars
                 (Threaded.after Threaded.spinner_chars
                    ThreadedAux.stop_then_frame)
                 (Threaded.after Threaded.spinner_chars
                    (ThreadedAux.stop_then_frame ++ ThreadedAux.last_pass))).
  { apply (ThreadedFacts.run_steps _ ThreadedAux.last_pass).
    vm_compute. reflexivity. }
  split; [exact Hr|]. split; [reflexivity|]. split; [exact Hs|].
  exact (at_most_one_frame_after_stop Threaded.spinner_chars _ _ Hr
           eq_refl Hs).
Defined.

(** X12. Whatever the interleaving and the frame set, what the main flow
    itself has put on the console when the demo is over is what it writes
    when run alone: the banner, "Starting work...", the pause, the line
    clear and "Work complete!", in this order. *)
Theorem main_flow_output_fixed (chars : list str) (s : Threaded.state) :
  Threaded.reachable chars s ->
  ThreadedAux.completed s ->
  ThreadedAux.main_events s = events ThreadedAux.main_flow_alone.
Proof.
  intros Hr Hc.
  rewrite (ThreadedMore.main_events_steps chars Threaded.init s eq_refl Hr).
  unfold Threaded.executed. rewrite Hc, firstn_all.
  vm_compute. reflexivity.
Qed.

Lemma main_flow_output_fixed_witness :
  Threaded.reachable Threaded.spinner_chars
    (Threaded.after Threaded.spinner_chars
       (Threaded.until_join 5 ++ Threaded.to_the_end)) /\
  ThreadedAux.completed
    (Threaded.after Threaded.spinner_chars
       (Threaded.until_join 5 ++ Threaded.to_the_end)) /\
  ThreadedAux.main_events
    (Threaded.after Threaded.spinner_chars
       (Threaded.until_join 5 ++ Threaded.to_the_end))
  = events ThreadedAux.main_flow_alone.
Proof.
  assert (Hr : Threaded.reachable Threaded.spinner_chars
                 (Threaded.after Threaded.spinner_chars
                    (Threaded.until_join 5 ++ Threaded.to_the_end))).
  { apply (ThreadedFacts.run_steps _
             (Threaded.until_join 5 ++ Threaded.to_the_end)).
    vm_compute. reflexivity. }
  split; [exact Hr|]. split; [reflexivity|].
  exact (main_flow_output_fixed Threaded.spinner_chars _ Hr eq_refl).
Defined.

(* ================================================================== *)
(** ** The threaded demo always can finish *)

Module ThreadedProgress.
Import Threaded ThreadedFacts ThreadedAux.

Section Frames.

Variable chars : list str.

Lemma run_app (a b : list actor) (s : state) :
  run chars (a ++ b) s =
    match run chars a s with
    | Some s1 => run chars b s1
    | None => None
    end.
Proof.
  revert s. induction a as [|x a IH]; intros s; cbn; [reflexivity|].
  destruct (step_of chars x s); [apply IH | reflexivity].
Qed.

Lemma step_main_pc (s s' : state) :
  step_main s = Some s' -> pc s' = S (pc s).
Proof.
  unfold step_main. intros H.
  destruct (nth_error main_prog (pc s)) as [[e| | | |]|];
    try discriminate;
    [ | | destruct (thread s); try discriminate | |
      destruct (terminated (thread s)); try discriminate ];
    injection H as <-; reflexivity.
Qed.

Ltac wf_main :=
  match goal with
  | H : step_main _ = Some _ |- _ =>
      vm_compute in H;
      repeat match type of H with
             | match ?t with _ => _ end = _ => destruct t; try discriminate H
             end;
      first [discriminate H | injection H as <-]
  end.

Lemma wf_step (s s' : state) : wf s -> step chars s s' -> wf s'.
Proof.
  intros W Hstep. destruct Hstep as [[|] s s' Hstep];
    cbn [step_of] in Hstep.
  - destruct s as [p th st o]. destruct W as [W1 [W2 [W3 W4]]].
    cbn [pc thread stop_event] in *.
    do 14 (destruct p as [|p];
           [ wf_main; unfold wf; cbn [pc thread stop_event];
             repeat split; intros; try lia; try discriminate;
             solve [ apply W2; lia | apply W3; lia | apply W4; lia
                   | reflexivity ]
           | ]).
    lia.
  - unfold step_thread in Hstep. destruct W as [W1 [W2 [W3 W4]]].
    destruct (thread_step chars (stop_event s) (thread s)) as [[t evs]|] eqn:E;
      [|discriminate].
    injection Hstep as <-. unfold wf. cbn [pc thread stop_event].
    split; [exact W1|]. split; [|split; [|exact W4]].
    + intros Hp. rewrite (W2 Hp) in E. discriminate E.
    + intros _.
      destruct (thread s) as [|i|i|i|i|i| |e]; cbn in E; try discriminate E.
      * injection E as <- _. destruct (stop_event s); discriminate.
      * destruct (outcome (index chars i)); injection E as <- _; discriminate.
      * injection E as <- _. discriminate.
      * destruct (outcome (mod_ (i + 1) (Z.of_nat (length chars))));
          injection E as <- _; discriminate.
      * injection E as <- _. discriminate.
Qed.

Lemma wf_steps (s s' : state) : wf s -> steps chars s s' -> wf s'.
Proof.
  intros W H. induction H as [|s s' s'' _ IH Hstep].
  - exact W.
  - eapply wf_step; [apply IH; exact W | exact Hstep].
Qed.

Lemma wf_init : wf init.
Proof.
  unfold wf. cbn. repeat split; intros; try lia; try reflexivity.
Qed.

(** Before [join] the main flow always has a step. *)
Lemma main_enabled (s : state) :
  wf s -> (pc s < 8)%nat -> exists s', step_main s = Some s'.
Proof.
  intros [W1 [W2 [W3 W4]]] Hp. destruct s as [p th st o].
  cbn [pc thread stop_event] in *.
  do 8 (destruct p as [|p];
        [ try (rewrite (W2 ltac:(lia))); eexists; vm_compute; reflexivity
        | ]).
  lia.
Qed.

Lemma to_join (k : nat) (s : state) :
  wf s -> (pc s + k = 8)%nat ->
  exists s', run chars (repeat MainFlow k) s = Some s' /\
             pc s' = 8%nat /\ wf s'.
Proof.
  revert s. induction k as [|k IH]; intros s W Hp.
  - exists s. split; [reflexivity|]. split; [lia | exact W].
  - destruct (main_enabled s W ltac:(lia)) as [s1 H1].
    destruct (IH s1) as [s' [Hrun H']].
    + eapply wf_step; [exact W | exact (step_by chars MainFlow s s1 H1)].
    + rewrite (step_main_pc s s1 H1). lia.
    + exists s'. cbn [repeat run step_of]. rewrite H1.
      split; [exact Hrun | exact H'].
Qed.

(** *** The thread leaves its loop once the stop event is set *)

Lemma stops_now (s : state) : terminated (thread s) = true -> stops chars s.
Proof.
  intros T. exists [], s. cbn. repeat split. exact T.
Qed.

Lemma stops_after (s : state) (t : tpc) (evs : list event) :
  thread_step chars (stop_event s) (thread s) = Some (t, evs) ->
  stops chars {| pc := pc s; thread := t; stop_event := stop_event s;
                 out := out s ++ map (pair Animation) evs |} ->
  stops chars s.
Proof.
  intros E [sched [s' [Hrun [Hp T]]]].
  exists (Animation :: sched), s'. cbn [run step_of].
  unfold step_thread. rewrite E. repeat split; assumption.
Qed.

Lemma stops_test (p : nat) (i : Z) (o : list (actor * event)) :
  stops chars {| pc := p; thread := AtTest i; stop_event := true; out := o |}.
Proof.
  eapply stops_after; [reflexivity|]. apply stops_now. reflexivity.
Qed.

Lemma stops_sleep (p : nat) (i : Z) (o : list (actor * event)) :
  stops chars {| pc := p; thread := AtSleep i; stop_event := true; out := o |}.
Proof.
  eapply stops_after; [reflexivity|]. apply stops_test.
Qed.

Lemma stops_incr (p : nat) (i : Z) (o : list (actor * event)) :
  stops chars {| pc := p; thread := AtIncr i; stop_event := true; out := o |}.
Proof.
  destruct (outcome (mod_ (i + 1) (Z.of_nat (length chars)))) as [j|e] eqn:E.
  - eapply stops_after; [cbn [thread_step thread]; rewrite E; reflexivity|].
    apply stops_sleep.
  - eapply stops_after; [cbn [thread_step thread]; rewrite E; reflexivity|].
    apply stops_now. reflexivity.
Qed.

Lemma stops_flush (p : nat) (i : Z) (o : list (actor * event)) :
  stops chars {| pc := p; thread := AtFlush i; stop_event := true; out := o |}.
Proof.
  eapply stops_after; [reflexivity|]. apply stops_incr.
Qed.

Lemma stops_write (p : nat) (i : Z) (o : list (actor * event)) :
  stops chars {| pc := p; thread := AtWrite i; stop_event := true; out := o |}.
Proof.
  destruct (outcome (index chars i)) as [c|e] eqn:E.
  - eapply stops_after; [cbn [thread_step thread]; rewrite E; reflexivity|].
    apply stops_flush.
  - eapply stops_after; [cbn [thread_step thread]; rewrite E; reflexivity|].
    apply stops_now. reflexivity.
Qed.

Lemma stops_from (s : state) :
  stop_event s = true -> thread s <> NotStarted -> stops chars s.
Proof.
  destruct s as [p th st o]. cbn [stop_event thread]. intros -> Hth.
  destruct th as [|i|i|i|i|i| |e].
  - contradiction.
  - apply stops_test.
  - apply stops_write.
  - apply stops_flush.
  - apply stops_incr.
  - apply stops_sleep.
  - apply stops_now. reflexivity.
  - apply stops_now. reflexivity.
Qed.

(** *** From [join] to the end *)

Lemma from_join (s : state) :
  pc s = 8%nat -> terminated (thread s) = true ->
  exists s', run chars (repeat MainFlow 5) s = Some s' /\
             completed s' /\ terminated (thread s') = true.
Proof.
  destruct s as [p th st o]. cbn [pc thread]. intros -> T.
  destruct th; try discriminate T;
    eexists; (split; [vm_compute; reflexivity | split; reflexivity]).
Qed.

Lemma from_late (s : state) :
  (9 <= pc s <= 13)%nat ->
  exists s', run chars (repeat MainFlow (13 - pc s)) s = Some s' /\
             completed s' /\ thread s' = thread s.
Proof.
  destruct s as [p th st o]. cbn [pc thread]. intros Hp.
  do 9 (destruct p as [|p]; [lia|]).
  do 5 (destruct p as [|p];
        [ eexists; (split; [vm_compute; reflexivity | split; reflexivity])
        | ]).
  lia.
Qed.

Lemma joined_late (s : state) : (9 <= pc s <= 13)%nat -> joined s = true.
Proof.
  unfold joined, executed. destruct s as [p th st o]. cbn [pc]. intros Hp.
  do 9 (destruct p as [|p]; [lia|]).
  do 5 (destruct p as [|p]; [vm_compute; reflexivity|]).
  lia.
Qed.

End Frames.

End ThreadedProgress.

(** X13. The threaded demo cannot get stuck: from every state an execution
    can reach, whatever the frame set, some continuation brings the main
    flow to its end with the thread over.  In particular [join] never waits
    for ever: once the stop event is set, the thread ends within one pass of
    its loop. *)
Theorem threaded_demo_can_finish (chars : list str) (s : Threaded.state) :
  Threaded.reachable chars s ->
  exists sched s',
    Threaded.run chars sched s = Some s' /\
    ThreadedAux.completed s' /\
    Threaded.terminated (Threaded.thread s') = true.
Proof.
  intros Hr.
  pose proof (ThreadedProgress.wf_steps chars _ _
                ThreadedProgress.wf_init Hr) as W.
  destruct (Nat.le_gt_cases (Threaded.pc s) 8) as [Hp|Hp].
  - destruct (ThreadedProgress.to_join chars (8 - Threaded.pc s) s W
                ltac:(lia)) as [s1 [R1 [P1 W1]]].
    destruct W1 as [_ [_ [W3 W4]]].
    destruct (ThreadedProgress.stops_from chars s1 (W4 ltac:(lia))
                (W3 ltac:(lia))) as [sched2 [s2 [R2 [P2 T2]]]].
    destruct (ThreadedProgress.from_join chars s2 ltac:(lia) T2)
      as [s3 [R3 [C3 T3]]].
    exists (repeat Threaded.MainFlow (8 - Threaded.pc s)
            ++ sched2 ++ repeat Threaded.MainFlow 5), s3.
    rewrite ThreadedProgress.run_app, R1, ThreadedProgress.run_app, R2.
    split; [exact R3 | split; [exact C3 | exact T3]].
  - destruct W as [W1 _].
    destruct (ThreadedProgress.from_late chars s ltac:(lia))
      as [s' [R [C T]]].
    exists (repeat Threaded.MainFlow (13 - Threaded.pc s)), s'.
    split; [exact R|]. split; [exact C|]. rewrite T.
    apply (ThreadedFacts.reachable_joined chars s Hr).
    apply ThreadedProgress.joined_late. lia.
Qed.

Lemma threaded_demo_can_finish_witness :
  Threaded.reachable Threaded.spinner_chars
    (Threaded.after Threaded.spinner_chars
       (repeat Threaded.MainFlow 4 ++ repeat Threaded.Animation 7)) /\
  exists sched s',
    Threaded.run Threaded.spinner_chars sched
      (Threaded.after Threaded.spinner_chars
         (repeat Threaded.MainFlow 4 ++ repeat Threaded.Animation 7))
    = Some s' /\
    ThreadedAux.completed s' /\
    Threaded.terminated (Threaded.thread s') = true.
Proof.
  assert (Hr : Threaded.reachable Threaded.spinner_chars
                 (Threaded.after Threaded.spinner_chars
                    (repeat Threaded.MainFlow 4
                     ++ repeat Threaded.Animation 7))).
  { apply (ThreadedFacts.run_steps _
             (repeat Threaded.MainFlow 4 ++ repeat Threaded.Animation 7)).
    vm_compute. reflexivity. }
  split; [exact Hr|].
  exact (threaded_demo_can_finish Threaded.spinner_chars _ Hr).
Defined.

(* ================================================================== *)
(** ** What the terminal shows *)

Module TerminalFacts.
Import Terminal.

Lemma feed_app (t : screen) (s u : str) :
  feed t (s ++ u) = feed (feed t s) u.
Proof. unfold feed. apply fold_left_app. Qed.

Lemma feed1_visible (t : screen) (x : N) :
  is_visible x = true ->
  feed1 t x =
    {| above := above t; line := put (line t) (col t) x; col := S (col t) |}.
Proof.
  intros V. unfold feed1. rewrite V.
  unfold is_visible in V. apply andb_true_iff in V. destruct V as [V _].
  apply N.leb_le in V.
  destruct (N.eqb_spec x 13); [lia|].
  destruct (N.eqb_spec x 10); [lia|].
  destruct (N.eqb_spec x 8); [lia|]. reflexivity.
Qed.

Lemma put_at_end_of_prefix (pre rest : str) (x : N) :
  put (pre ++ rest) (length pre) x = (pre ++ [x]) ++ skipn 1 rest.
Proof.
  unfold put.
  replace (length pre - length (pre ++ rest))%nat with 0%nat
    by (rewrite length_app; lia).
  cbn [repeat]. rewrite app_nil_r.
  rewrite firstn_app, Nat.sub_diag, firstn_all, firstn_O, app_nil_r.
  rewrite skipn_app, skipn_all2 by lia.
  replace (S (length pre) - length pre)%nat with 1%nat by lia.
  rewrite <- app_assoc. reflexivity.
Qed.

(** Visible text written from the cursor on replaces as many cells and
    leaves the rest of the line as it was. *)
Lemma feed_visible (text pre rest : str) (a : list str) :
  Forall (fun x => is_visible x = true) text ->
  feed {| above := a; line := pre ++ rest; col := length pre |} text =
    {| above := a; line := pre ++ text ++ skipn (length text) rest;
       col := length pre + length text |}.
Proof.
  intros V. revert pre rest.
  induction V as [|x text Vx _ IH]; intros pre rest.
  - cbn. rewrite Nat.add_0_r. reflexivity.
  - cbn [feed fold_left]. rewrite feed1_visible by exact Vx.
    cbn [above line col]. rewrite put_at_end_of_prefix.
    replace (S (length pre)) with (length (pre ++ [x]))
      by (rewrite length_app; cbn; lia).
    fold (feed {| above := a; line := (pre ++ [x]) ++ skipn 1 rest;
                  col := length (pre ++ [x]) |} text).
    rewrite IH. rewrite skipn_skipn, length_app. cbn [length].
    rewrite <- app_assoc. cbn [app].
    rewrite Nat.add_1_r, <- Nat.add_assoc. reflexivity.
Qed.

Lemma feed_visible_from_start (text l : str) (a : list str) :
  Forall (fun x => is_visible x = true) text ->
  feed {| above := a; line := l; col := 0 |} text =
    {| above := a; line := text ++ skipn (length text) l;
       col := length text |}.
Proof.
  intros V. apply (feed_visible text [] l a V).
Qed.

(** A run of erase sequences with the cursor at the start of an empty line
    has nothing to erase: it leaves one blank there. *)
Lemma feed_erase_at_start (n : nat) (a : list str) :
  feed {| above := a; line := []; col := 0 |} (concat (repeat erase_seq n)) =
    {| above := a; line := match n with O => [] | S _ => [32%N] end;
       col := 0 |}.
Proof.
  destruct n as [|n]; [reflexivity|].
  cbn [repeat concat]. rewrite feed_app.
  change (feed {| above := a; line := []; col := 0 |} erase_seq)
    with {| above := a; line := [32%N]; col := 0 |}.
  induction n as [|n IH]; [reflexivity|].
  cbn [repeat concat]. rewrite feed_app. exact IH.
Qed.

End TerminalFacts.

(** X14. [clear_line] blanks the first 80 columns of the line of the cursor
    and leaves the cursor at its start; what the line holds from column 80
    on stays, so that a longer line is not cleared to its end. *)
Theorem clear_line_blanks_80_columns (t : Terminal.screen) :
  Terminal.feed t (concat (written clear_line)) =
    {| Terminal.above := Terminal.above t;
       Terminal.line := repeat 32%N 80 ++ skipn 80 (Terminal.line t);
       Terminal.col := 0 |}.
Proof.
  change (concat (written clear_line)) with (CR ++ repeat 32%N 80 ++ CR).
  rewrite !TerminalFacts.feed_app.
  change (Terminal.feed t CR)
    with {| Terminal.above := Terminal.above t;
            Terminal.line := Terminal.line t; Terminal.col := 0 |}.
  rewrite TerminalFacts.feed_visible_from_start
    by (apply Forall_forall; intros x Hx; apply repeat_spec in Hx;
        subst x; reflexivity).
  rewrite repeat_length. reflexivity.
Qed.

(** X15. The frames of the countdown get shorter once, from 10 to 9, and a
    carriage return does not clear the line: from 9 down to 1 the line shows
    the counter followed by the 0 left of "10" ("Countdown: 90", ...).  Only
    the padded completion line removes it: at the end the line reads
    "Countdown: Blast off!" and its five spaces. *)
Theorem countdown_keeps_stale_digit (i : Z) :
  1 <= i <= 9 ->
  Terminal.line (Terminal.show (countdown_to i))
    = py "Countdown: " ++ of_int i ++ py "0" /\
  demo_carriage_return =
    (print (LF ++ py "=== Carriage Return Demo ===") ;;
     print (py "Counting down with carriage return:") ;;
     countdown_to 1 ;;
     write_with_flush countdown_done) /\
  Terminal.show demo_carriage_return =
    {| Terminal.above :=
         [[]; py "=== Carriage Return Demo ===";
          py "Counting down with carriage return:";
          py "Countdown: Blast off!     "];
       Terminal.line := []; Terminal.col := 0 |}.
Proof.
  intros H. split; [|split; vm_compute; reflexivity].
  assert (C : stale_digit i = true).
  { assert (E : i = 1 \/ i = 2 \/ i = 3 \/ i = 4 \/ i = 5 \/ i = 6 \/ i = 7
                \/ i = 8 \/ i = 9) by lia.
    repeat (destruct E as [E|E]; [subst i; vm_compute; reflexivity|]).
    subst i. vm_compute. reflexivity. }
  unfold stale_digit, Str.eqb in C.
  destruct (list_eq_dec N.eq_dec _ _) as [E|]; [exact E | discriminate C].
Qed.

Lemma countdown_keeps_stale_digit_witness :
  1 <= 9 <= 9 /\
  Terminal.line (Terminal.show (countdown_to 9))
    = py "Countdown: " ++ of_int 9 ++ py "0" /\
  demo_carriage_return =
    (print (LF ++ py "=== Carriage Return Demo ===") ;;
     print (py "Counting down with carriage return:") ;;
     countdown_to 1 ;;
     write_with_flush countdown_done) /\
  Terminal.show demo_carriage_return =
    {| Terminal.above :=
         [[]; py "=== Carriage Return Demo ===";
          py "Counting down with carriage return:";
          py "Countdown: Blast off!     "];
       Terminal.line := []; Terminal.col := 0 |}.
Proof.
  split; [lia | apply (countdown_keeps_stale_digit 9); lia].
Defined.

Lemma concat_singletons (s : str) : concat (map (fun c => [c]) s) = s.
Proof.
  induction s as [|c s IH]; [reflexivity|]. cbn. rewrite IH. reflexivity.
Qed.

(** X16. In the backspace demo the erasing phase erases nothing of what was
    typed: it starts after "Deleting effect:" has been printed, on a fresh
    line, where the cursor is at the start and a backspace has no effect.
    Whatever the message (of visible characters), it is still on the screen
    at the end, and "Done!" stands on the line where the erasing ran. *)
Theorem backspace_leaves_message (message : str) :
  Forall (fun c => is_visible c = true) message ->
  Terminal.show (backspace message) =
    {| Terminal.above :=
         [[]; py "=== Backspace Demo ==="; py "Typing effect:"; message; [];
          py "Deleting effect:"; py "Done!"];
       Terminal.line := []; Terminal.col := 0 |}.
Proof.
  intros V. unfold Terminal.show. rewrite backspace_writes.
  rewrite !concat_app, concat_singletons, !TerminalFacts.feed_app.
  change (Terminal.feed Terminal.blank
            (concat [LF ++ py "=== Backspace Demo ==="; LF;
                     py "Typing effect:"; LF]))
    with {| Terminal.above :=
              [[]; py "=== Backspace Demo ==="; py "Typing effect:"];
            Terminal.line := []; Terminal.col := 0 |}.
  rewrite TerminalFacts.feed_visible_from_start by exact V.
  rewrite skipn_nil, app_nil_r.
  change (Terminal.feed
            {| Terminal.above :=
                 [[]; py "=== Backspace Demo ==="; py "Typing effect:"];
               Terminal.line := message; Terminal.col := length message |}
            (concat [LF; LF; py "Deleting effect:"; LF]))
    with {| Terminal.above :=
              [[]; py "=== Backspace Demo ==="; py "Typing effect:"; message;
               []; py "Deleting effect:"];
            Terminal.line := []; Terminal.col := 0 |}.
  rewrite TerminalFacts.feed_erase_at_start.
  destruct (length message); reflexivity.
Qed.

Lemma backspace_leaves_message_witness :
  Forall (fun c => is_visible c = true) (py "Hello, World!") /\
  Terminal.show (backspace (py "Hello, World!")) =
    {| Terminal.above :=
         [[]; py "=== Backspace Demo ==="; py "Typing effect:";
          py "Hello, World!"; []; py "Deleting effect:"; py "Done!"];
       Terminal.line := []; Terminal.col := 0 |}.
Proof.
  assert (V : Forall (fun c => is_visible c = true) (py "Hello, World!"))
    by (repeat constructor).
  split; [exact V | exact (backspace_leaves_message (py "Hello, World!") V)].
Defined.

(** X17. In the basic write demo the two calls of [write_with_flush] that
    follow each other end up on one line of the terminal, the second text
    right after the first; the line ends only with the explicit line feed. *)
Theorem basic_write_joins_on_one_line :
  Terminal.show demo_basic_write =
    {| Terminal.above :=
         [[]; py "=== Basic Write Demo ==="; py "Line 1 with print";
          py "Line 2 with print";
          py "Line 1 with stdout.write" ++ py "Line 2 with stdout.write";
          py "Now we're on a new line"];
       Terminal.line := []; Terminal.col := 0 |} /\
  in_order [py "Line 1 with stdout.write"; py "Line 2 with stdout.write"; LF]
           (written demo_basic_write) = true.
Proof. split; vm_compute; reflexivity. Qed.

(** X18. The two loops of the flush demo write the same five strings, and
    the terminal ends up with the same line for each; they differ in the
    flushes only: the demo flushes five times in all, each time right after
    a write of the second loop. *)
Theorem flush_demo_same_text :
  written demo_flush_importance =
    [LF ++ py "=== Flush Importance Demo ==="; LF;
     py "Without flush (may not show immediately):"; LF]
    ++ map (fun i => py "Processing " ++ of_int i ++ py "... ") (range 5)
    ++ [LF ++ LF ++ py "With flush (shows immediately):"; LF]
    ++ map (fun i => py "Processing " ++ of_int i ++ py "... ") (range 5)
    ++ [LF ++ py "Done!"; LF] /\
  length (filter (fun e => match e with Flush => true | _ => false end)
                 (events demo_flush_importance)) = 5%nat /\
  events demo_flush_importance =
    events (print (LF ++ py "=== Flush Importance Demo ===") ;;
            print (py "Without flush (may not show immediately):"))
    ++ flat_map (fun i => [Write (py "Processing " ++ of_int i ++ py "... ");
                           Sleep 500]) (range 5)
    ++ events (print (LF ++ LF ++ py "With flush (shows immediately):"))
    ++ flat_map (fun i => [Write (py "Processing " ++ of_int i ++ py "... ");
                           Flush; Sleep 500]) (range 5)
    ++ events (print (LF ++ py "Done!")) /\
  Terminal.above (Terminal.show demo_flush_importance) =
    [[]; py "=== Flush Importance Demo ===";
     py "Without flush (may not show immediately):";
     concat (map (fun i => py "Processing " ++ of_int i ++ py "... ")
                 (range 5));
     []; py "With flush (shows immediately):";
     concat (map (fun i => py "Processing " ++ of_int i ++ py "... ")
                 (range 5));
     py "Done!"].
Proof. repeat split; vm_compute; reflexivity. Qed.

(** X19. None of the nine sequential demos lets an exception out, so that
    [main] calls all ten demos in the order of its list and prints its
    closing lines, whenever the call of the threaded demo returns or raises
    an error. *)
Theorem main_runs_every_demo (threaded : io unit) :
  passes {| __name__ := py "demo_threaded_animation"; call := threaded |}
    = true ->
  main threaded
  = (main_header ++ flat_map handled (demos threaded) ++ main_footer, Ok tt) /\
  map __name__ (demos threaded) =
    [py "demo_basic_write"; py "demo_flush_importance";
     py "demo_carriage_return"; py "demo_loading_animation";
     py "demo_progress_bar"; py "demo_multi_line_output";
     py "demo_backspace"; py "demo_threaded_animation";
     py "demo_advanced_loading"; py "demo_error_handling"].
Proof.
  intros H. split; [|reflexivity].
  unfold main. rewrite main_with_run, (main_calls_all threaded H).
  reflexivity.
Qed.

Lemma main_runs_every_demo_witness :
  passes {| __name__ := py "demo_threaded_animation";
            call := ThreadedAux.main_flow_alone |} = true /\
  main ThreadedAux.main_flow_alone
  = (main_header ++ flat_map handled (demos ThreadedAux.main_flow_alone)
       ++ main_footer, Ok tt) /\
  map __name__ (demos ThreadedAux.main_flow_alone) =
    [py "demo_basic_write"; py "demo_flush_importance";
     py "demo_carriage_return"; py "demo_loading_animation";
     py "demo_progress_bar"; py "demo_multi_line_output";
     py "demo_backspace"; py "demo_threaded_animation";
     py "demo_advanced_loading"; py "demo_error_handling"].
Proof.
  split; [reflexivity|].
  exact (main_runs_every_demo ThreadedAux.main_flow_alone eq_refl).
Defined.
